(** * Pong (pygame): a shallow embedding of [pong.py] and its frame loop

    Modelling conventions.
    - [pygame.Rect] stores four C integers; they are modelled as [Z]
      (the coordinates of this game stay far below the 32-bit range).
    - Python floats are modelled as real numbers [R]: arithmetic is exact,
      [x ** 0.5] is [sqrt], and rounding error is not represented.  A Python
      [int] that meets a float is embedded with [IZR].
    - A float assigned to a [Rect] attribute is stored as the nearest
      integer: [nearest].
    - [/] raises [ZeroDivisionError] on a zero divisor: [pydiv] returns
      [None] there, and the functions that divide live in the option monad.
    - The [random] module is an explicit stream of draws ([Rand]) with a
      cursor in the game state.
    - The three sound objects are [None] in [main], so no sound is played
      and the sound branches are left out. *)

From Stdlib Require Import ZArith Reals Lra Lia List Bool.
Import ListNotations.

Open Scope Z_scope.

(** ** Config *)

Definition WIDTH : Z := 900.
Definition HEIGHT : Z := 600.
Definition MARGIN : Z := 20.
Definition PADDLE_W : Z := 14.
Definition PADDLE_H : Z := 110.
Definition BALL_SIZE : Z := 14.
Definition PADDLE_SPEED : Z := 7.
Definition BALL_SPEED : Z := 6.
Definition WIN_SCORE : Z := 11.

(** ** Numeric helpers *)

(** The integer a [Rect] keeps of a float stored in it: the nearest one.
    An exact half goes away from zero here; no statement below rests on
    the value at a half. *)
Definition nearest (r : R) : Z :=
  if Rle_dec 0 r then Int_part (r + / 2) else - Int_part (- r + / 2).

(** Python's true division. *)
Definition pydiv (a b : R) : option R :=
  if Req_dec_T b 0 then None else Some (a / b)%R.

Definition bind {A B : Type} (m : option A) (f : A -> option B) : option B :=
  match m with
  | Some a => f a
  | None => None
  end.

Notation "x <- m ;; k" := (bind m (fun x => k))
  (at level 61, m at next level, right associativity).

Definition b2z (b : bool) : Z := if b then 1 else 0.

(** ** pygame.Rect *)

Module Rect.

Record t : Type := mk { x : Z; y : Z; w : Z; h : Z }.

Definition left (r : t) : Z := x r.
Definition top (r : t) : Z := y r.
Definition right (r : t) : Z := x r + w r.
Definition bottom (r : t) : Z := y r + h r.
Definition centerx (r : t) : Z := x r + Z.shiftr (w r) 1.
Definition centery (r : t) : Z := y r + Z.shiftr (h r) 1.

Definition set_x (v : Z) (r : t) : t := mk v (y r) (w r) (h r).
Definition set_y (v : Z) (r : t) : t := mk (x r) v (w r) (h r).
Definition set_left (v : Z) (r : t) : t := set_x v r.
Definition set_top (v : Z) (r : t) : t := set_y v r.
Definition set_right (v : Z) (r : t) : t := set_x (v - w r) r.
Definition set_bottom (v : Z) (r : t) : t := set_y (v - h r) r.
Definition set_center (c : Z * Z) (r : t) : t :=
  mk (fst c - Z.shiftr (w r) 1) (snd c - Z.shiftr (h r) 1) (w r) (h r).

(** [r.x = v] and [r.y = v] for a float [v]. *)
Definition set_x_float (v : R) (r : t) : t := set_x (nearest v) r.
Definition set_y_float (v : R) (r : t) : t := set_y (nearest v) r.

(** [a.colliderect(b)]: empty rectangles collide with nothing; touching
    edges do not count. *)
Definition colliderect (a b : t) : bool :=
  if (w a =? 0) || (h a =? 0) || (w b =? 0) || (h b =? 0) then false
  else
    (Z.min (x a) (x a + w a) <? Z.max (x b) (x b + w b))
    && (Z.min (y a) (y a + h a) <? Z.max (y b) (y b + h b))
    && (Z.max (x a) (x a + w a) >? Z.min (x b) (x b + w b))
    && (Z.max (y a) (y a + h a) >? Z.min (y b) (y b + h b)).

End Rect.

(** ** random *)

(** One use of the generator by [Ball.reset]: the index [random.choice]
    picks in a two-element list and the value of [random.random()] behind
    [random.uniform]. *)
Record Draw : Type := mkDraw { pick : bool; u : R }.

Definition valid_draw (d : Draw) : Prop := (0 <= u d < 1)%R.

Definition Rand : Type := nat -> Draw.

Definition valid_rand (rnd : Rand) : Prop := forall n, valid_draw (rnd n).

(** [random.choice([a, b])]. *)
Definition choice (a b : Z) (d : Draw) : Z := if pick d then b else a.

(** [random.uniform(a, b)] is [a + (b - a) * random()]. *)
Definition uniform (a b : R) (d : Draw) : R := (a + (b - a) * u d)%R.

(** ** Objects *)

Module Paddle.

Record t : Type := mk { rect : Rect.t; vel : R }.

Definition init (x y : Z) : t := mk (Rect.mk x y PADDLE_W PADDLE_H) 0.

Definition set_vel (v : R) (self : t) : t := mk (rect self) v.

Definition update (bounds : Rect.t) (self : t) : t :=
  let r := Rect.set_y_float (IZR (Rect.y (rect self)) + vel self) (rect self) in
  let r := if Rect.top r <? Rect.top bounds
           then Rect.set_top (Rect.top bounds) r else r in
  let r := if Rect.bottom r >? Rect.bottom bounds
           then Rect.set_bottom (Rect.bottom bounds) r else r in
  mk r (vel self).

End Paddle.

Module Ball.

Record t : Type := mk { rect : Rect.t; vx : R; vy : R }.

Definition dir_x (d : Draw) : R := IZR (choice (-1) 1 d).
Definition dir_y (d : Draw) : R := uniform (-0.8) 0.8 d.

(** The divisor [mag] of [reset]. *)
Definition reset_mag (d : Draw) : R := sqrt (dir_x d ^ 2 + dir_y d ^ 2).

Definition reset (center : Z * Z) (d : Draw) (self : t) : option t :=
  let r := Rect.set_center center (rect self) in
  let speed := IZR BALL_SPEED in
  let mag := reset_mag d in
  qx <- pydiv (dir_x d) mag ;;
  qy <- pydiv (dir_y d) mag ;;
  Some (mk r (speed * qx) (speed * qy)).

(** The constructor: a square at [(x, y)], then [reset(center=(x, y))]. *)
Definition init (x y : Z) (d : Draw) : option t :=
  reset (x, y) d (mk (Rect.mk x y BALL_SIZE BALL_SIZE) 0 0).

Definition update (self : t) : t :=
  let r := Rect.set_x_float (IZR (Rect.x (rect self)) + vx self) (rect self) in
  let r := Rect.set_y_float (IZR (Rect.y r) + vy self) r in
  mk r (vx self) (vy self).

Definition speed (self : t) : R := sqrt (vx self ^ 2 + vy self ^ 2).

End Ball.

(** ** Helpers *)

(** [offset] of [ball_paddle_collision], for a ball rectangle [r]. *)
Definition collision_offset (r : Rect.t) (paddle : Paddle.t) : option R :=
  pydiv (IZR (Rect.centery r - Rect.centery (Paddle.rect paddle)))
        (IZR PADDLE_H / 2).

(** [speed] of [ball_paddle_collision]: the magnitude of the reflected
    velocity before it is normalized, for a given [offset]. *)
Definition collision_speed (ball : Ball.t) (offset : R) : R :=
  sqrt ((Ball.vx ball * -1) ^ 2 + ((IZR BALL_SPEED + 0.5) * offset) ^ 2).

Definition ball_paddle_collision (ball : Ball.t) (paddle : Paddle.t)
  : option Ball.t :=
  if Rect.colliderect (Ball.rect ball) (Paddle.rect paddle) then
    let r := if Rlt_dec (Ball.vx ball) 0
             then Rect.set_left (Rect.right (Paddle.rect paddle)) (Ball.rect ball)
             else Rect.set_right (Rect.left (Paddle.rect paddle)) (Ball.rect ball) in
    offset <- collision_offset r paddle ;;
    let vx1 := (Ball.vx ball * -1)%R in
    let vy1 := ((IZR BALL_SPEED + 0.5) * offset)%R in
    let speed := collision_speed ball offset in
    factor <- pydiv (IZR BALL_SPEED) speed ;;
    Some (Ball.mk r (vx1 * factor) (vy1 * factor))
  else Some ball.

Definition clamp_ball_vertical (ball : Ball.t) (bounds : Rect.t) : Ball.t :=
  if Rect.top (Ball.rect ball) <=? Rect.top bounds then
    Ball.mk (Rect.set_top (Rect.top bounds) (Ball.rect ball))
            (Ball.vx ball) (Ball.vy ball * -1)
  else if Rect.bottom (Ball.rect ball) >=? Rect.bottom bounds then
    Ball.mk (Rect.set_bottom (Rect.bottom bounds) (Ball.rect ball))
            (Ball.vx ball) (Ball.vy ball * -1)
  else ball.

Definition ai_move (paddle : Paddle.t) (ball : Ball.t) : Paddle.t :=
  let target := Rect.centery (Ball.rect ball) in
  let band := 12 in
  if Rect.centery (Paddle.rect paddle) <? target - band then
    Paddle.set_vel (IZR PADDLE_SPEED * 0.9) paddle
  else if Rect.centery (Paddle.rect paddle) >? target + band then
    Paddle.set_vel (IZR (- PADDLE_SPEED) * 0.9) paddle
  else Paddle.set_vel 0 paddle.

(** ** Main *)

Inductive Key : Type := K_ESCAPE | K_SPACE | K_r | K_h | K_other.

Inductive Event : Type := QUIT | KEYDOWN (key : Key) | OTHER.

(** The part of [pygame.key.get_pressed()] the loop reads. *)
Record Keys : Type := mkKeys { K_w : bool; K_s : bool }.

(** The local variables of [main] that the loop carries from frame to
    frame, and [drawn], the number of draws taken from the generator. *)
Record Game : Type := mkGame {
  left : Paddle.t;
  right : Paddle.t;
  ball : Ball.t;
  score_l : Z;
  score_r : Z;
  running : bool;
  paused : bool;
  show_help : bool;
  drawn : nat
}.

Definition play_area : Rect.t :=
  Rect.mk MARGIN MARGIN (WIDTH - 2 * MARGIN) (HEIGHT - 2 * MARGIN).

Definition screen_center : Z * Z := (WIDTH / 2, HEIGHT / 2).

(** [ball.reset((WIDTH//2, HEIGHT//2))] with the next draw. *)
Definition reset_ball (rnd : Rand) (g : Game) : option Game :=
  b <- Ball.reset screen_center (rnd (drawn g)) (ball g) ;;
  Some (mkGame (left g) (right g) b (score_l g) (score_r g)
               (running g) (paused g) (show_help g) (S (drawn g))).

(** The state before the first iteration of the loop. *)
Definition init (rnd : Rand) : option Game :=
  b <- Ball.init (WIDTH / 2 - BALL_SIZE / 2) (HEIGHT / 2 - BALL_SIZE / 2) (rnd O) ;;
  Some (mkGame (Paddle.init (MARGIN + 18) (HEIGHT / 2 - PADDLE_H / 2))
               (Paddle.init (WIDTH - MARGIN - 18 - PADDLE_W) (HEIGHT / 2 - PADDLE_H / 2))
               b 0 0 true false true 1%nat).

(** The body of [for event in pygame.event.get()]. *)
Definition handle_event (rnd : Rand) (g : Game) (ev : Event) : option Game :=
  match ev with
  | QUIT =>
      Some (mkGame (left g) (right g) (ball g) (score_l g) (score_r g)
                   false (paused g) (show_help g) (drawn g))
  | KEYDOWN K_ESCAPE =>
      Some (mkGame (left g) (right g) (ball g) (score_l g) (score_r g)
                   false (paused g) (show_help g) (drawn g))
  | KEYDOWN K_SPACE =>
      Some (mkGame (left g) (right g) (ball g) (score_l g) (score_r g)
                   (running g) (negb (paused g)) (show_help g) (drawn g))
  | KEYDOWN K_r =>
      reset_ball rnd
        (mkGame (left g) (right g) (ball g) 0 0
                (running g) (paused g) (show_help g) (drawn g))
  | KEYDOWN K_h =>
      Some (mkGame (left g) (right g) (ball g) (score_l g) (score_r g)
                   (running g) (paused g) (negb (show_help g)) (drawn g))
  | KEYDOWN K_other => Some g
  | OTHER => Some g
  end.

Fixpoint handle_events (rnd : Rand) (evs : list Event) (g : Game) : option Game :=
  match evs with
  | [] => Some g
  | ev :: evs' => g' <- handle_event rnd g ev ;; handle_events rnd evs' g'
  end.

(** Human controls for the left paddle, [ai_move] for the right one
    ([human_right] is [False]). *)
Definition controls (keys : Keys) (g : Game) : Game :=
  mkGame (Paddle.set_vel (IZR ((b2z (K_s keys) - b2z (K_w keys)) * PADDLE_SPEED)) (left g))
         (ai_move (right g) (ball g))
         (ball g) (score_l g) (score_r g)
         (running g) (paused g) (show_help g) (drawn g).

(** The motion part of the [if not paused] block: paddles, ball, wall
    clamp and the two paddle collisions. *)
Definition play_step (g : Game) : option Game :=
  let l := Paddle.update play_area (left g) in
  let r := Paddle.update play_area (right g) in
  let b := Ball.update (ball g) in
  let b := clamp_ball_vertical b play_area in
  b <- ball_paddle_collision b l ;;
  b <- ball_paddle_collision b r ;;
  Some (mkGame l r b (score_l g) (score_r g)
               (running g) (paused g) (show_help g) (drawn g)).

(** The scoring part of the [if not paused] block. *)
Definition scoring (rnd : Rand) (g : Game) : option Game :=
  g <- (if Rect.left (Ball.rect (ball g)) <=? Rect.left play_area - 4 then
          reset_ball rnd
            (mkGame (left g) (right g) (ball g) (score_l g) (score_r g + 1)
                    (running g) (paused g) (show_help g) (drawn g))
        else Some g) ;;
  if Rect.right (Ball.rect (ball g)) >=? Rect.right play_area + 4 then
    reset_ball rnd
      (mkGame (left g) (right g) (ball g) (score_l g + 1) (score_r g)
              (running g) (paused g) (show_help g) (drawn g))
  else Some g.

(** The state change under the win banner. *)
Definition win_banner (g : Game) : Game :=
  if (score_l g >=? WIN_SCORE) || (score_r g >=? WIN_SCORE) then
    mkGame (left g) (right g) (ball g) (score_l g) (score_r g)
           (running g) true (show_help g) (drawn g)
  else g.

(** One iteration of [while running]. *)
Definition frame (rnd : Rand) (evs : list Event) (keys : Keys) (g : Game)
  : option Game :=
  g <- handle_events rnd evs g ;;
  let g := controls keys g in
  g <- (if negb (paused g) then g' <- play_step g ;; scoring rnd g'
        else Some g) ;;
  Some (win_banner g).

(** The loop over a finite prefix of frame inputs; it leaves as soon as
    [running] is false. *)
Fixpoint run (rnd : Rand) (inputs : list (list Event * Keys)) (g : Game)
  : option Game :=
  match inputs with
  | [] => Some g
  | (evs, keys) :: rest =>
      if running g then g' <- frame rnd evs keys g ;; run rnd rest g'
      else Some g
  end.

(** ** Predicates used by the statements *)

(** States the loop can be in at the top of an iteration. *)
Inductive reachable (rnd : Rand) : Game -> Prop :=
| reach_init : forall g, init rnd = Some g -> reachable rnd g
| reach_frame : forall g evs keys g',
    reachable rnd g -> running g = true ->
    frame rnd evs keys g = Some g' -> reachable rnd g'.

(** Ball states the program can build: a ball comes from [reset] (the
    constructor ends in one) and is then moved, clamped and bounced. *)
Inductive ball_state : Ball.t -> Prop :=
| bs_reset : forall c d b b',
    valid_draw d -> Ball.reset c d b = Some b' -> ball_state b'
| bs_update : forall b, ball_state b -> ball_state (Ball.update b)
| bs_clamp : forall b bounds,
    ball_state b -> ball_state (clamp_ball_vertical b bounds)
| bs_collision : forall b p b',
    ball_state b -> ball_paddle_collision b p = Some b' -> ball_state b'.

(** The game is won when a score has reached [WIN_SCORE]. *)
Definition won (g : Game) : bool :=
  (score_l g >=? WIN_SCORE) || (score_r g >=? WIN_SCORE).

(** [n] consecutive calls of [Ball.update]. *)
Fixpoint updates (n : nat) (b : Ball.t) : Ball.t :=
  match n with
  | O => b
  | S n' => updates n' (Ball.update b)
  end.

(** The velocity invariant: the speed budget is met and the ball has a
    horizontal component. *)
Definition ball_ok (b : Ball.t) : Prop :=
  Ball.speed b = IZR BALL_SPEED /\ Ball.vx b <> 0%R.

(** What [Ball.reset] builds when no division fails. *)
Definition fresh_ball (c : Z * Z) (d : Draw) (b : Ball.t) : Ball.t :=
  Ball.mk (Rect.set_center c (Ball.rect b))
          (IZR BALL_SPEED * (Ball.dir_x d / Ball.reset_mag d))
          (IZR BALL_SPEED * (Ball.dir_y d / Ball.reset_mag d)).

(** The rectangle a bounce pushes the ball to, and the [offset] computed
    from it. *)
Definition pushed_out (b : Ball.t) (p : Paddle.t) : Rect.t :=
  if Rlt_dec (Ball.vx b) 0
  then Rect.set_left (Rect.right (Paddle.rect p)) (Ball.rect b)
  else Rect.set_right (Rect.left (Paddle.rect p)) (Ball.rect b).

Definition bounce_offset (b : Ball.t) (p : Paddle.t) : R :=
  (IZR (Rect.centery (pushed_out b p) - Rect.centery (Paddle.rect p))
   / (IZR PADDLE_H / 2))%R.

(** [r] lies within the vertical span of [bounds]. *)
Definition v_inside (r bounds : Rect.t) : Prop :=
  Rect.top bounds <= Rect.top r /\ Rect.bottom r <= Rect.bottom bounds.

Definition paddle_ok (p : Paddle.t) : Prop :=
  Rect.h (Paddle.rect p) = PADDLE_H /\ v_inside (Paddle.rect p) play_area.

Definition ball_sized (b : Ball.t) : Prop :=
  Rect.w (Ball.rect b) = BALL_SIZE /\ Rect.h (Ball.rect b) = BALL_SIZE.

Definition game_inv (g : Game) : Prop :=
  ball_state (ball g) /\ ball_sized (ball g) /\
  paddle_ok (left g) /\ paddle_ok (right g).

(** ** Concrete states used in the examples *)

(** [random.choice] picks [1] and [random.random()] returns [0.5], so
    [random.uniform(-0.8, 0.8)] is [0.0]. *)
Definition sample_draw : Draw := mkDraw true 0.5.
Definition sample_rand : Rand := fun _ => sample_draw.

(** Draws whose vertical direction is [-0.08] and [0.08]. *)
Definition slow_draw : Draw := mkDraw true 0.45.
Definition creep_draw : Draw := mkDraw false 0.55.

(** A draw whose vertical direction is [-0.12]. *)
Definition rising_draw : Draw := mkDraw true 0.425.

Definition no_keys : Keys := mkKeys false false.
Definition s_key : Keys := mkKeys false true.

(** Right has just won: the score is 0 to 11, the ball was put back at
    the centre by the scoring reset and the win banner has set [paused]. *)
Definition won_right : Game :=
  mkGame (Paddle.init (MARGIN + 18) (HEIGHT / 2 - PADDLE_H / 2))
         (Paddle.init (WIDTH - MARGIN - 18 - PADDLE_W) (HEIGHT / 2 - PADDLE_H / 2))
         (Ball.mk (Rect.mk 443 293 BALL_SIZE BALL_SIZE) 6 0)
         0 WIN_SCORE true true true 12.

(** The ball has gone past the left paddle: its left edge is at 16 and
    its right edge at 30. *)
Definition edge_game : Game :=
  mkGame (Paddle.init (MARGIN + 18) MARGIN)
         (Paddle.init (WIDTH - MARGIN - 18 - PADDLE_W) (HEIGHT / 2 - PADDLE_H / 2))
         (Ball.mk (Rect.mk 16 293 BALL_SIZE BALL_SIZE) (-6) 0)
         0 0 true false true 1.

(** The state [init] builds from [sample_rand]. *)
Definition first_game : Game :=
  mkGame (Paddle.init (MARGIN + 18) (HEIGHT / 2 - PADDLE_H / 2))
         (Paddle.init (WIDTH - MARGIN - 18 - PADDLE_W) (HEIGHT / 2 - PADDLE_H / 2))
         (fresh_ball (WIDTH / 2 - BALL_SIZE / 2, HEIGHT / 2 - BALL_SIZE / 2) (sample_rand O)
            (Ball.mk (Rect.mk (WIDTH / 2 - BALL_SIZE / 2) (HEIGHT / 2 - BALL_SIZE / 2)
                              BALL_SIZE BALL_SIZE) 0 0))
         0 0 true false true 1%nat.

(** A ball reset onto the middle of the left paddle's start position. *)
Definition hit_ball : Ball.t :=
  fresh_ball (45, 300) sample_draw (Ball.mk (Rect.mk 0 0 BALL_SIZE BALL_SIZE) 0 0).
Definition hit_paddle : Paddle.t :=
  Paddle.init (MARGIN + 18) (HEIGHT / 2 - PADDLE_H / 2).

Definition fast_paddle : Paddle.t :=
  Paddle.set_vel (IZR 1000) (Paddle.init (MARGIN + 18) (HEIGHT / 2 - PADDLE_H / 2)).

(** A ball that has moved above the top of the play area. *)
Definition high_ball : Ball.t :=
  Ball.mk (Rect.mk 443 17 BALL_SIZE BALL_SIZE) 3.6 (-4.8).

(** Balls as [reset] leaves them at the centre, with a small upward and
    a small downward vertical velocity. *)
Definition slow_ball : Ball.t :=
  fresh_ball screen_center slow_draw (Ball.mk (Rect.mk 0 0 BALL_SIZE BALL_SIZE) 0 0).
Definition creeping_ball : Ball.t :=
  fresh_ball screen_center creep_draw (Ball.mk (Rect.mk 0 0 BALL_SIZE BALL_SIZE) 0 0).

(** The ball [reset] leaves at the centre for [rising_draw]. *)
Definition rising_ball : Ball.t :=
  fresh_ball screen_center rising_draw (Ball.mk (Rect.mk 0 0 BALL_SIZE BALL_SIZE) 0 0).

(** ** Definitions for the further properties *)

(** The two clamps of [Paddle.update], for a paddle of height [h] that
    has been moved to [y1]. *)
Definition clamp_y (bounds : Rect.t) (h y1 : Z) : Z :=
  Z.min (Z.max y1 (Rect.top bounds)) (Rect.bottom bounds - h).

Definition ai_paddle : Paddle.t := Paddle.init (WIDTH - MARGIN - 18 - PADDLE_W) 300.
Definition low_ball : Ball.t := Ball.mk (Rect.mk 443 500 BALL_SIZE BALL_SIZE) 6 0.

Definition low_hit_ball : Ball.t :=
  fresh_ball (45, 330) sample_draw (Ball.mk (Rect.mk 0 0 BALL_SIZE BALL_SIZE) 0 0).
Definition far_paddle : Paddle.t :=
  Paddle.init (WIDTH - MARGIN - 18 - PADDLE_W) (HEIGHT / 2 - PADDLE_H / 2).

(** The ball's part of a frame before the paddles are tested:
    [ball.update()] then [clamp_ball_vertical(ball, bounds)]. *)
Definition wall_step (bounds : Rect.t) (b : Ball.t) : Ball.t :=
  clamp_ball_vertical (Ball.update b) bounds.



Definition key_eqb (a b : Key) : bool :=
  match a, b with
  | K_ESCAPE, K_ESCAPE | K_SPACE, K_SPACE | K_r, K_r | K_h, K_h
  | K_other, K_other => true
  | _, _ => false
  end.

(** The number of [KEYDOWN] events for key [k] in an event list. *)
Fixpoint presses (k : Key) (evs : list Event) : nat :=
  match evs with
  | [] => O
  | KEYDOWN k' :: evs' =>
      if key_eqb k k' then S (presses k evs') else presses k evs'
  | _ :: evs' => presses k evs'
  end.

(** Whether an event list asks to quit: a [QUIT] event or Escape. *)
Fixpoint quits (evs : list Event) : bool :=
  match evs with
  | [] => false
  | QUIT :: _ => true
  | KEYDOWN K_ESCAPE :: _ => true
  | _ :: evs' => quits evs'
  end.

(** The ball is where it can be drawn between two frames: not past a
    scoring line and between the walls. *)
Definition ball_on_screen (b : Ball.t) : Prop :=
  Rect.left play_area - 4 < Rect.left (Ball.rect b) /\
  Rect.right (Ball.rect b) < Rect.right play_area + 4 /\
  v_inside (Ball.rect b) play_area.

Definition paddles_in_column (g : Game) : Prop :=
  Rect.x (Paddle.rect (left g)) = MARGIN + 18 /\
  Rect.w (Paddle.rect (left g)) = PADDLE_W /\
  Rect.x (Paddle.rect (right g)) = WIDTH - MARGIN - 18 - PADDLE_W /\
  Rect.w (Paddle.rect (right g)) = PADDLE_W.

Definition scores_ok (g : Game) : Prop := 0 <= score_l g /\ 0 <= score_r g.

(** What holds between the motion and the scoring of a frame. *)
Definition mid_inv (g : Game) : Prop :=
  game_inv g /\ v_inside (Ball.rect (ball g)) play_area /\
  paddles_in_column g /\ scores_ok g.

(** What holds at the top of every iteration. *)
Definition loop_inv (g : Game) : Prop :=
  mid_inv g /\ ball_on_screen (ball g).

Definition busy_events : list Event :=
  [KEYDOWN K_SPACE; KEYDOWN K_h; OTHER; KEYDOWN K_SPACE; KEYDOWN K_other].

Definition paused_first : Game :=
  mkGame (left first_game) (right first_game) (ball first_game)
         (score_l first_game) (score_r first_game) true true true 1%nat.

(** [draw_center_line]: the rectangles handed to [pygame.draw.rect], in
    order.  The [while] loop runs on fuel; [None] means the fuel ran out. *)
Fixpoint center_line_loop (fuel : nat) (y : Z) : option (list Rect.t) :=
  match fuel with
  | O => None
  | S fuel' =>
      let dash_h := 14 in
      let gap := 10 in
      if y <? HEIGHT then
        rest <- center_line_loop fuel' (y + (dash_h + gap)) ;;
        Some (Rect.mk (WIDTH / 2 - 2) y 4 dash_h :: rest)
      else Some []
  end.

Definition draw_center_line (fuel : nat) : option (list Rect.t) :=
  center_line_loop fuel 0.

(** * Proofs *)

(** ** Rounding and division *)

Lemma nearest_within (z : Z) (r : R) :
  (IZR z - / 2 < r < IZR z + / 2)%R -> nearest r = z.
Proof.
  intros Hr. unfold nearest. destruct (Rle_dec 0 r) as [_ | _].
  - symmetry. apply Int_part_spec. lra.
  - assert (E : (- z)%Z = Int_part (- r + / 2))
      by (apply Int_part_spec; rewrite opp_IZR; lra).
    rewrite <- E. lia.
Qed.

Lemma nearest_shift (z k : Z) (v : R) :
  (IZR k - / 2 < v < IZR k + / 2)%R -> nearest (IZR z + v) = z + k.
Proof.
  intros Hv. apply nearest_within. rewrite plus_IZR. lra.
Qed.

Lemma nearest_IZR (z : Z) : nearest (IZR z) = z.
Proof. apply nearest_within. lra. Qed.

Lemma nearest_plus_IZR (a b : Z) : nearest (IZR a + IZR b) = a + b.
Proof. rewrite <- plus_IZR. apply nearest_IZR. Qed.

Lemma pydiv_Some (a b : R) : b <> 0%R -> pydiv a b = Some (a / b)%R.
Proof.
  intros Hb. unfold pydiv. destruct (Req_dec_T b 0); [ contradiction | reflexivity ].
Qed.

Lemma dir_x_sqr (d : Draw) : (Ball.dir_x d ^ 2 = 1)%R.
Proof.
  unfold Ball.dir_x, choice. destruct (pick d); simpl; lra.
Qed.

Lemma reset_mag_ge_1 (d : Draw) : (1 <= Ball.reset_mag d)%R.
Proof.
  unfold Ball.reset_mag. rewrite dir_x_sqr.
  rewrite <- sqrt_1 at 1. apply sqrt_le_1_alt.
  pose proof (pow2_ge_0 (Ball.dir_y d)). lra.
Qed.

Lemma sqrt_36 : sqrt 36 = 6%R.
Proof.
  replace 36%R with (6 * 6)%R by lra. apply sqrt_square. lra.
Qed.

(** ** The velocity invariant *)

Lemma sqrt_sum_pos (a b : R) : a <> 0%R -> (0 < sqrt (a ^ 2 + b ^ 2))%R.
Proof.
  intros Ha. apply sqrt_lt_R0.
  pose proof (pow2_ge_0 b). pose proof (pow2_ge_0 a).
  assert (a ^ 2 <> 0)%R by (apply pow_nonzero; exact Ha). lra.
Qed.

Lemma normalized_speed (a b s : R) :
  s = sqrt (a ^ 2 + b ^ 2) -> (0 < s)%R ->
  sqrt ((a * (6 / s)) ^ 2 + (b * (6 / s)) ^ 2) = 6%R.
Proof.
  intros Hs Hpos.
  assert (Hss : (s * s = a ^ 2 + b ^ 2)%R).
  { rewrite Hs. apply sqrt_sqrt.
    pose proof (pow2_ge_0 a). pose proof (pow2_ge_0 b). lra. }
  replace ((a * (6 / s)) ^ 2 + (b * (6 / s)) ^ 2)%R
    with (36 * (a ^ 2 + b ^ 2) / (s * s))%R by (field; lra).
  rewrite <- Hss.
  replace (36 * (s * s) / (s * s))%R with 36%R by (field; lra).
  exact sqrt_36.
Qed.

Lemma reset_eq (c : Z * Z) (d : Draw) (b : Ball.t) :
  Ball.reset c d b =
  Some (Ball.mk (Rect.set_center c (Ball.rect b))
                (IZR BALL_SPEED * (Ball.dir_x d / Ball.reset_mag d))
                (IZR BALL_SPEED * (Ball.dir_y d / Ball.reset_mag d))).
Proof.
  pose proof (reset_mag_ge_1 d) as Hm.
  unfold Ball.reset. cbv zeta.
  rewrite !pydiv_Some by lra. reflexivity.
Qed.

Lemma dir_x_nonzero (d : Draw) : Ball.dir_x d <> 0%R.
Proof.
  unfold Ball.dir_x, choice. destruct (pick d); simpl; lra.
Qed.

Lemma reset_ok (c : Z * Z) (d : Draw) (b b' : Ball.t) :
  Ball.reset c d b = Some b' -> ball_ok b'.
Proof.
  rewrite reset_eq. intros H. injection H as <-.
  pose proof (reset_mag_ge_1 d) as Hm.
  split.
  - unfold Ball.speed, BALL_SPEED. cbn [Ball.vx Ball.vy].
    replace (6 * (Ball.dir_x d / Ball.reset_mag d))%R
      with (Ball.dir_x d * (6 / Ball.reset_mag d))%R by (field; lra).
    replace (6 * (Ball.dir_y d / Ball.reset_mag d))%R
      with (Ball.dir_y d * (6 / Ball.reset_mag d))%R by (field; lra).
    apply normalized_speed; [ reflexivity | lra ].
  - cbn [Ball.vx]. unfold BALL_SPEED.
    pose proof (dir_x_nonzero d) as Hx.
    intros H0. apply Hx.
    assert (E : (Ball.dir_x d = (6 * (Ball.dir_x d / Ball.reset_mag d)) * Ball.reset_mag d / 6)%R)
      by (field; lra).
    rewrite E, H0. lra.
Qed.

Lemma update_vel (b : Ball.t) :
  Ball.vx (Ball.update b) = Ball.vx b /\ Ball.vy (Ball.update b) = Ball.vy b.
Proof. split; reflexivity. Qed.

Lemma update_ok (b : Ball.t) : ball_ok b -> ball_ok (Ball.update b).
Proof. intros H; exact H. Qed.

Lemma clamp_vel (b : Ball.t) (bounds : Rect.t) :
  Ball.vx (clamp_ball_vertical b bounds) = Ball.vx b /\
  (Ball.vy (clamp_ball_vertical b bounds) = Ball.vy b \/
   Ball.vy (clamp_ball_vertical b bounds) = (- Ball.vy b)%R).
Proof.
  unfold clamp_ball_vertical.
  destruct (_ <=? _); [ | destruct (_ >=? _) ]; cbn [Ball.vx Ball.vy];
    split; auto; right; lra.
Qed.

Lemma clamp_ok (b : Ball.t) (bounds : Rect.t) :
  ball_ok b -> ball_ok (clamp_ball_vertical b bounds).
Proof.
  intros [Hs Hx]. destruct (clamp_vel b bounds) as [Ex Ey].
  split; [ | rewrite Ex; exact Hx ].
  unfold Ball.speed in *. rewrite Ex.
  destruct Ey as [-> | ->]; [ exact Hs | ].
  rewrite <- Hs. f_equal. lra.
Qed.

Lemma offset_eq (r : Rect.t) (p : Paddle.t) :
  collision_offset r p =
  Some (IZR (Rect.centery r - Rect.centery (Paddle.rect p)) / (IZR PADDLE_H / 2))%R.
Proof.
  unfold collision_offset. apply pydiv_Some. unfold PADDLE_H. lra.
Qed.

Lemma collision_speed_pos (b : Ball.t) (o : R) :
  Ball.vx b <> 0%R -> (0 < collision_speed b o)%R.
Proof.
  intros Hx. unfold collision_speed. apply sqrt_sum_pos. lra.
Qed.

Lemma collision_hit (b : Ball.t) (p : Paddle.t) :
  Rect.colliderect (Ball.rect b) (Paddle.rect p) = true ->
  Ball.vx b <> 0%R ->
  ball_paddle_collision b p =
  Some (Ball.mk (pushed_out b p)
          (Ball.vx b * -1
           * (IZR BALL_SPEED / collision_speed b (bounce_offset b p)))
          ((IZR BALL_SPEED + 0.5) * bounce_offset b p
           * (IZR BALL_SPEED / collision_speed b (bounce_offset b p)))).
Proof.
  intros Hc Hx. unfold ball_paddle_collision. rewrite Hc. cbv zeta.
  fold (pushed_out b p). rewrite offset_eq. cbn [bind].
  fold (bounce_offset b p).
  pose proof (collision_speed_pos b (bounce_offset b p) Hx) as Hpos.
  rewrite pydiv_Some by lra. reflexivity.
Qed.

Lemma collision_miss (b : Ball.t) (p : Paddle.t) :
  Rect.colliderect (Ball.rect b) (Paddle.rect p) = false ->
  ball_paddle_collision b p = Some b.
Proof.
  intros Hc. unfold ball_paddle_collision. rewrite Hc. reflexivity.
Qed.

Lemma collision_ok (b : Ball.t) (p : Paddle.t) :
  ball_ok b -> exists b', ball_paddle_collision b p = Some b' /\ ball_ok b'.
Proof.
  intros [Hs Hx].
  destruct (Rect.colliderect (Ball.rect b) (Paddle.rect p)) eqn:Hc.
  - rewrite (collision_hit b p Hc Hx). eexists; split; [ reflexivity | ].
    pose proof (collision_speed_pos b (bounce_offset b p) Hx) as Hpos.
    split.
    + unfold Ball.speed, BALL_SPEED. cbn [Ball.vx Ball.vy].
      apply normalized_speed; [ reflexivity | exact Hpos ].
    + cbn [Ball.vx]. unfold BALL_SPEED.
      assert (0 < 6 / collision_speed b (bounce_offset b p))%R
        by (apply Rdiv_lt_0_compat; lra).
      nra.
  - rewrite (collision_miss b p Hc). eexists; split; [ reflexivity | split; assumption ].
Qed.

Lemma ball_state_ok (b : Ball.t) : ball_state b -> ball_ok b.
Proof.
  induction 1 as [c d b b' Hd Hr | b Hb IH | b bounds Hb IH | b p b' Hb IH Hc].
  - eapply reset_ok; eassumption.
  - apply update_ok, IH.
  - apply clamp_ok, IH.
  - destruct (collision_ok b p IH) as [b2 [E Hok]].
    rewrite E in Hc. injection Hc as <-. exact Hok.
Qed.

(** ** The frame loop keeps its invariant *)

Lemma reset_fresh (c : Z * Z) (d : Draw) (b : Ball.t) :
  Ball.reset c d b = Some (fresh_ball c d b).
Proof. apply reset_eq. Qed.

Lemma fresh_ball_state (c : Z * Z) (d : Draw) (b : Ball.t) :
  valid_draw d -> ball_state (fresh_ball c d b).
Proof.
  intros Hd. eapply bs_reset; [ exact Hd | apply reset_fresh ].
Qed.

Lemma fresh_ball_sized (c : Z * Z) (d : Draw) (b : Ball.t) :
  ball_sized b -> ball_sized (fresh_ball c d b).
Proof. intros H; exact H. Qed.

Lemma reset_ball_eq (rnd : Rand) (g : Game) :
  reset_ball rnd g =
  Some (mkGame (left g) (right g)
               (fresh_ball screen_center (rnd (drawn g)) (ball g))
               (score_l g) (score_r g) (running g) (paused g) (show_help g)
               (S (drawn g))).
Proof. unfold reset_ball. rewrite reset_fresh. reflexivity. Qed.

Lemma reset_ball_inv (rnd : Rand) (g : Game) :
  valid_rand rnd -> game_inv g ->
  exists g', reset_ball rnd g = Some g' /\ game_inv g'.
Proof.
  intros Hr (Hb & Hs & Hl & Hrt). rewrite reset_ball_eq.
  eexists; split; [ reflexivity | ].
  repeat split; cbn [ball left right]; try apply Hs; try apply Hl; try apply Hrt.
  apply fresh_ball_state, Hr.
Qed.

Lemma handle_event_inv (rnd : Rand) (g : Game) (ev : Event) :
  valid_rand rnd -> game_inv g ->
  exists g', handle_event rnd g ev = Some g' /\ game_inv g'.
Proof.
  intros Hr Hg. destruct ev as [ | [ | | | | ] | ]; cbn [handle_event];
    try (eexists; split; [ reflexivity | exact Hg ]).
  apply reset_ball_inv; [ exact Hr | exact Hg ].
Qed.

Lemma handle_events_inv (rnd : Rand) (evs : list Event) :
  valid_rand rnd -> forall g, game_inv g ->
  exists g', handle_events rnd evs g = Some g' /\ game_inv g'.
Proof.
  intros Hr. induction evs as [ | ev evs IH ]; intros g Hg; cbn [handle_events].
  - eexists; split; [ reflexivity | exact Hg ].
  - destruct (handle_event_inv rnd g ev Hr Hg) as [g1 [E1 H1]].
    rewrite E1. cbn [bind]. apply IH, H1.
Qed.

Lemma ai_move_rect (p : Paddle.t) (b : Ball.t) :
  Paddle.rect (ai_move p b) = Paddle.rect p.
Proof.
  unfold ai_move. cbv zeta.
  destruct (_ <? _); [ reflexivity | destruct (_ >? _); reflexivity ].
Qed.

Lemma controls_inv (keys : Keys) (g : Game) : game_inv g -> game_inv (controls keys g).
Proof.
  intros (Hb & Hs & Hl & Hrt). unfold game_inv, controls, paddle_ok.
  cbn [ball left right]. rewrite ai_move_rect. cbn [Paddle.set_vel Paddle.rect].
  auto.
Qed.

Lemma paddle_update_rect (bounds : Rect.t) (p : Paddle.t) :
  Rect.h (Paddle.rect p) <= Rect.h bounds ->
  Rect.h (Paddle.rect (Paddle.update bounds p)) = Rect.h (Paddle.rect p) /\
  v_inside (Paddle.rect (Paddle.update bounds p)) bounds.
Proof.
  intros Hh. unfold Paddle.update, v_inside. cbv zeta. cbn [Paddle.rect].
  set (r0 := Rect.set_y_float _ _).
  assert (H0 : Rect.h r0 = Rect.h (Paddle.rect p)) by reflexivity.
  destruct (Rect.top r0 <? Rect.top bounds) eqn:E1;
    [ apply Z.ltb_lt in E1 | apply Z.ltb_ge in E1 ];
    match goal with |- context [Rect.bottom ?r >? _] =>
      destruct (Rect.bottom r >? Rect.bottom bounds) eqn:E2 end;
    rewrite Z.gtb_ltb in E2;
    [ apply Z.ltb_lt in E2 | apply Z.ltb_ge in E2
    | apply Z.ltb_lt in E2 | apply Z.ltb_ge in E2 ];
    unfold Rect.set_bottom, Rect.set_top, Rect.set_y, Rect.top, Rect.bottom in *;
    cbn [Rect.x Rect.y Rect.w Rect.h] in *; lia.
Qed.

Lemma paddle_update_ok (p : Paddle.t) :
  paddle_ok p -> paddle_ok (Paddle.update play_area p).
Proof.
  intros [Hh _].
  destruct (paddle_update_rect play_area p) as [E Hin].
  - rewrite Hh. vm_compute. discriminate.
  - split; [ rewrite E; exact Hh | exact Hin ].
Qed.

Lemma update_sized (b : Ball.t) : ball_sized b -> ball_sized (Ball.update b).
Proof. intros H; exact H. Qed.

Lemma clamp_sized (b : Ball.t) (bounds : Rect.t) :
  ball_sized b -> ball_sized (clamp_ball_vertical b bounds).
Proof.
  intros H. unfold clamp_ball_vertical.
  destruct (_ <=? _); [ exact H | destruct (_ >=? _); exact H ].
Qed.

Lemma pushed_out_size (b : Ball.t) (p : Paddle.t) :
  Rect.w (pushed_out b p) = Rect.w (Ball.rect b) /\
  Rect.h (pushed_out b p) = Rect.h (Ball.rect b) /\
  Rect.y (pushed_out b p) = Rect.y (Ball.rect b).
Proof.
  unfold pushed_out. destruct (Rlt_dec _ _); repeat split; reflexivity.
Qed.

Lemma collision_sized (b : Ball.t) (p : Paddle.t) (b' : Ball.t) :
  ball_ok b -> ball_paddle_collision b p = Some b' ->
  ball_sized b -> ball_sized b'.
Proof.
  intros [_ Hx] E Hs.
  destruct (Rect.colliderect (Ball.rect b) (Paddle.rect p)) eqn:Hc.
  - rewrite (collision_hit b p Hc Hx) in E. injection E as <-.
    destruct (pushed_out_size b p) as (Ew & Eh & _).
    unfold ball_sized. cbn [Ball.rect]. rewrite Ew, Eh. exact Hs.
  - rewrite (collision_miss b p Hc) in E. injection E as <-. exact Hs.
Qed.

Lemma play_step_inv (g : Game) :
  game_inv g -> exists g', play_step g = Some g' /\ game_inv g'.
Proof.
  intros (Hb & Hs & Hl & Hrt). unfold play_step. cbv zeta.
  set (b1 := clamp_ball_vertical (Ball.update (ball g)) play_area).
  assert (Hb1 : ball_state b1) by (apply bs_clamp, bs_update, Hb).
  assert (Hs1 : ball_sized b1) by (apply clamp_sized, update_sized, Hs).
  destruct (collision_ok b1 (Paddle.update play_area (left g))
              (ball_state_ok _ Hb1)) as [b2 [E2 Hok2]].
  rewrite E2. cbn [bind].
  assert (Hb2 : ball_state b2) by (eapply bs_collision; eassumption).
  assert (Hs2 : ball_sized b2)
    by (eapply collision_sized; [ apply ball_state_ok, Hb1 | exact E2 | exact Hs1 ]).
  destruct (collision_ok b2 (Paddle.update play_area (right g)) Hok2)
    as [b3 [E3 Hok3]].
  rewrite E3. cbn [bind].
  eexists; split; [ reflexivity | ].
  split; [ | split; [ | split ] ]; cbn [ball left right].
  - eapply bs_collision; eassumption.
  - exact (collision_sized b2 _ b3 Hok2 E3 Hs2).
  - apply paddle_update_ok, Hl.
  - apply paddle_update_ok, Hrt.
Qed.

Lemma fresh_ball_right (d : Draw) (b : Ball.t) :
  ball_sized b ->
  Rect.right (Ball.rect (fresh_ball screen_center d b)) = 457
  /\ Rect.left (Ball.rect (fresh_ball screen_center d b)) = 443.
Proof.
  intros [Hw _]. unfold fresh_ball, Rect.right, Rect.left, Rect.set_center.
  cbn [Ball.rect Rect.x Rect.w]. rewrite Hw. split; reflexivity.
Qed.

Lemma scoring_left (rnd : Rand) (g : Game) :
  ball_sized (ball g) ->
  Rect.left (Ball.rect (ball g)) <= Rect.left play_area - 4 ->
  scoring rnd g =
  Some (mkGame (left g) (right g)
               (fresh_ball screen_center (rnd (drawn g)) (ball g))
               (score_l g) (score_r g + 1)
               (running g) (paused g) (show_help g) (S (drawn g))).
Proof.
  intros Hs Hl. unfold scoring.
  apply Z.leb_le in Hl. rewrite Hl.
  rewrite reset_ball_eq. cbn [bind ball left right score_l score_r running paused show_help drawn].
  destruct (fresh_ball_right (rnd (drawn g)) (ball g) Hs) as [Er _].
  rewrite Er. reflexivity.
Qed.

Lemma scoring_right (rnd : Rand) (g : Game) :
  Rect.left play_area - 4 < Rect.left (Ball.rect (ball g)) ->
  Rect.right play_area + 4 <= Rect.right (Ball.rect (ball g)) ->
  scoring rnd g =
  Some (mkGame (left g) (right g)
               (fresh_ball screen_center (rnd (drawn g)) (ball g))
               (score_l g + 1) (score_r g)
               (running g) (paused g) (show_help g) (S (drawn g))).
Proof.
  intros Hl Hr. unfold scoring.
  apply Z.leb_gt in Hl. rewrite Hl. cbn [bind].
  apply Z.geb_le in Hr. rewrite Hr.
  apply reset_ball_eq.
Qed.

Lemma scoring_none (rnd : Rand) (g : Game) :
  Rect.left play_area - 4 < Rect.left (Ball.rect (ball g)) ->
  Rect.right (Ball.rect (ball g)) < Rect.right play_area + 4 ->
  scoring rnd g = Some g.
Proof.
  intros Hl Hr. unfold scoring.
  apply Z.leb_gt in Hl. rewrite Hl. cbn [bind].
  destruct (Rect.right (Ball.rect (ball g)) >=? Rect.right play_area + 4) eqn:E;
    [ | reflexivity ].
  apply Z.geb_le in E. lia.
Qed.

Lemma scoring_inv (rnd : Rand) (g : Game) :
  valid_rand rnd -> game_inv g ->
  exists g', scoring rnd g = Some g' /\ game_inv g'.
Proof.
  intros Hr Hg. pose proof Hg as (Hb & Hs & Hl & Hrt).
  destruct (Z_le_gt_dec (Rect.left (Ball.rect (ball g))) (Rect.left play_area - 4))
    as [L | L].
  - rewrite (scoring_left rnd g Hs L). eexists; split; [ reflexivity | ].
    repeat split; cbn [ball left right]; try apply Hs; try apply Hl; try apply Hrt.
    apply fresh_ball_state, Hr.
  - destruct (Z_le_gt_dec (Rect.right play_area + 4) (Rect.right (Ball.rect (ball g))))
      as [Rr | Rr].
    + rewrite (scoring_right rnd g) by lia. eexists; split; [ reflexivity | ].
      repeat split; cbn [ball left right]; try apply Hs; try apply Hl; try apply Hrt.
      apply fresh_ball_state, Hr.
    + rewrite (scoring_none rnd g) by lia. eexists; split; [ reflexivity | exact Hg ].
Qed.

Lemma win_banner_inv (g : Game) : game_inv g -> game_inv (win_banner g).
Proof.
  intros Hg. unfold win_banner. destruct (_ || _); exact Hg.
Qed.

Lemma frame_inv (rnd : Rand) (evs : list Event) (keys : Keys) (g : Game) :
  valid_rand rnd -> game_inv g ->
  exists g', frame rnd evs keys g = Some g' /\ game_inv g'.
Proof.
  intros Hr Hg. unfold frame.
  destruct (handle_events_inv rnd evs Hr g Hg) as [g1 [E1 H1]].
  rewrite E1. cbn [bind].
  pose proof (controls_inv keys g1 H1) as H2.
  destruct (negb (paused (controls keys g1))).
  - destruct (play_step_inv _ H2) as [g3 [E3 H3]]. rewrite E3. cbn [bind].
    destruct (scoring_inv rnd g3 Hr H3) as [g4 [E4 H4]]. rewrite E4. cbn [bind].
    eexists; split; [ reflexivity | apply win_banner_inv, H4 ].
  - cbn [bind]. eexists; split; [ reflexivity | apply win_banner_inv, H2 ].
Qed.

Lemma init_eq (rnd : Rand) :
  init rnd =
  Some (mkGame (Paddle.init (MARGIN + 18) (HEIGHT / 2 - PADDLE_H / 2))
               (Paddle.init (WIDTH - MARGIN - 18 - PADDLE_W) (HEIGHT / 2 - PADDLE_H / 2))
               (fresh_ball (WIDTH / 2 - BALL_SIZE / 2, HEIGHT / 2 - BALL_SIZE / 2) (rnd O)
                  (Ball.mk (Rect.mk (WIDTH / 2 - BALL_SIZE / 2) (HEIGHT / 2 - BALL_SIZE / 2)
                                    BALL_SIZE BALL_SIZE) 0 0))
               0 0 true false true 1%nat).
Proof.
  unfold init, Ball.init. rewrite reset_fresh. reflexivity.
Qed.

Lemma paddle_init_ok (x : Z) : paddle_ok (Paddle.init x (HEIGHT / 2 - PADDLE_H / 2)).
Proof.
  unfold paddle_ok, v_inside, Paddle.init, Rect.top, Rect.bottom.
  cbn [Paddle.rect Rect.y Rect.h]. 
  split; [ reflexivity | ]. split; vm_compute; discriminate.
Qed.

Lemma init_inv (rnd : Rand) :
  valid_rand rnd -> exists g, init rnd = Some g /\ game_inv g.
Proof.
  intros Hr. rewrite init_eq. eexists; split; [ reflexivity | ].
  split; [ | split; [ | split ] ]; cbn [ball left right].
  - apply fresh_ball_state, Hr.
  - split; reflexivity.
  - apply paddle_init_ok.
  - apply paddle_init_ok.
Qed.

Lemma reachable_inv (rnd : Rand) (g : Game) :
  valid_rand rnd -> reachable rnd g -> game_inv g.
Proof.
  intros Hr. induction 1 as [g Hi | g evs keys g' Hg IH Hrun Hf].
  - destruct (init_inv rnd Hr) as [g0 [E0 H0]].
    rewrite E0 in Hi. injection Hi as <-. exact H0.
  - destruct (frame_inv rnd evs keys g Hr IH) as [g1 [E1 H1]].
    rewrite E1 in Hf. injection Hf as <-. exact H1.
Qed.

Lemma run_reachable (rnd : Rand) (inputs : list (list Event * Keys)) :
  forall g g', reachable rnd g -> run rnd inputs g = Some g' -> reachable rnd g'.
Proof.
  induction inputs as [ | [evs keys] rest IH ]; intros g g' Hg; cbn [run].
  - intros E. injection E as <-. exact Hg.
  - destruct (running g) eqn:Hrun.
    + destruct (frame rnd evs keys g) as [g1 | ] eqn:Ef; cbn [bind];
        [ | discriminate ].
      apply IH. eapply reach_frame; eassumption.
    + intros E. injection E as <-. exact Hg.
Qed.

Lemma reachable_ball_state (rnd : Rand) (g : Game) :
  valid_rand rnd -> reachable rnd g -> ball_state (ball g).
Proof. intros Hr Hg. apply (reachable_inv rnd g Hr Hg). Qed.

Lemma paddles_stay_inside (rnd : Rand) (g : Game) :
  valid_rand rnd -> reachable rnd g ->
  v_inside (Paddle.rect (left g)) play_area /\
  v_inside (Paddle.rect (right g)) play_area.
Proof.
  intros Hr Hg. destruct (reachable_inv rnd g Hr Hg) as (_ & _ & [_ Hl] & [_ Hrt]).
  split; assumption.
Qed.

(** ** Facts about fresh balls and the sample draws *)

Lemma fresh_ball_center (c : Z * Z) (d : Draw) (b : Ball.t) :
  Rect.centerx (Ball.rect (fresh_ball c d b)) = fst c /\
  Rect.centery (Ball.rect (fresh_ball c d b)) = snd c.
Proof.
  unfold Rect.centerx, Rect.centery, fresh_ball, Rect.set_center.
  cbn [Ball.rect Rect.x Rect.y Rect.w Rect.h]. lia.
Qed.

Lemma fresh_ball_ok (c : Z * Z) (d : Draw) (b : Ball.t) : ball_ok (fresh_ball c d b).
Proof. eapply reset_ok. apply reset_fresh. Qed.

Lemma inv_mag_bounds (d : Draw) : (0 < / Ball.reset_mag d <= 1)%R.
Proof.
  pose proof (reset_mag_ge_1 d) as Hm.
  split; [ apply Rinv_0_lt_compat; lra | ].
  rewrite <- Rinv_1. apply Rinv_le_contravar; lra.
Qed.

Lemma reset_mag_sqr (d : Draw) :
  (Ball.reset_mag d * Ball.reset_mag d = 1 + Ball.dir_y d ^ 2)%R.
Proof.
  unfold Ball.reset_mag. rewrite sqrt_sqrt.
  - rewrite dir_x_sqr. reflexivity.
  - rewrite dir_x_sqr. pose proof (pow2_ge_0 (Ball.dir_y d)). lra.
Qed.

(** The vertical velocity after a reset is at most six times the vertical
    direction drawn. *)
Lemma fresh_ball_vy (c : Z * Z) (d : Draw) (b : Ball.t) :
  (Rabs (Ball.vy (fresh_ball c d b)) <= 6 * Rabs (Ball.dir_y d))%R.
Proof.
  pose proof (inv_mag_bounds d) as Hi.
  unfold fresh_ball, BALL_SPEED, Rdiv. cbn [Ball.vy].
  rewrite !Rabs_mult, (Rabs_right 6) by lra.
  rewrite (Rabs_right (/ Ball.reset_mag d)) by lra.
  pose proof (Rabs_pos (Ball.dir_y d)). nra.
Qed.

Lemma sample_draw_valid : valid_draw sample_draw.
Proof. unfold valid_draw, sample_draw. cbn [u]. lra. Qed.

Lemma sample_rand_valid : valid_rand sample_rand.
Proof. intros n. exact sample_draw_valid. Qed.

Lemma sample_dir :
  Ball.dir_x sample_draw = 1%R /\ Ball.dir_y sample_draw = 0%R /\
  Ball.reset_mag sample_draw = 1%R.
Proof.
  assert (Ex : Ball.dir_x sample_draw = 1%R) by reflexivity.
  assert (Ey : Ball.dir_y sample_draw = 0%R)
    by (unfold Ball.dir_y, uniform, sample_draw; cbn [u]; lra).
  repeat split; try assumption.
  unfold Ball.reset_mag. rewrite Ex, Ey.
  replace (1 ^ 2 + 0 ^ 2)%R with 1%R by lra. apply sqrt_1.
Qed.

Lemma fresh_sample (c : Z * Z) (b : Ball.t) :
  fresh_ball c sample_draw b = Ball.mk (Rect.set_center c (Ball.rect b)) 6 0.
Proof.
  unfold fresh_ball. destruct sample_dir as (-> & -> & ->).
  unfold BALL_SPEED. f_equal; lra.
Qed.

Lemma creep_dir_y : Ball.dir_y creep_draw = 0.08%R.
Proof. unfold Ball.dir_y, uniform, creep_draw. cbn [u]. lra. Qed.

Lemma creeping_ball_vy : (Rabs (Ball.vy creeping_ball) <= 0.49)%R.
Proof.
  pose proof (fresh_ball_vy screen_center creep_draw
                (Ball.mk (Rect.mk 0 0 BALL_SIZE BALL_SIZE) 0 0)) as H.
  rewrite creep_dir_y, (Rabs_right 0.08) in H by lra.
  unfold creeping_ball. lra.
Qed.

Lemma rising_ball_vy : (- 0.72 <= Ball.vy rising_ball <= - 0.6)%R.
Proof.
  assert (Ey : Ball.dir_y rising_draw = (- 0.12)%R)
    by (unfold Ball.dir_y, uniform, rising_draw; cbn [u]; lra).
  pose proof (reset_mag_ge_1 rising_draw) as Hm.
  pose proof (reset_mag_sqr rising_draw) as Hmm.
  pose proof (inv_mag_bounds rising_draw) as Hi.
  assert (Him : (/ Ball.reset_mag rising_draw * Ball.reset_mag rising_draw = 1)%R)
    by (apply Rinv_l; lra).
  rewrite Ey in Hmm.
  unfold rising_ball, fresh_ball, BALL_SPEED, Rdiv. cbn [Ball.vy]. rewrite Ey.
  set (m := Ball.reset_mag rising_draw) in *. set (i := (/ m)%R) in *.
  assert (Hm12 : (m <= 1.2)%R) by nra.
  assert (Hi12 : (1 <= 1.2 * i)%R) by nra.
  lra.
Qed.

(** ** Frames that start paused *)

Lemma paused_frame (rnd : Rand) (keys : Keys) (g : Game) :
  paused g = true -> won g = false ->
  frame rnd [] keys g = Some (controls keys g).
Proof.
  intros Hp Hw. unfold frame. cbn [handle_events bind].
  unfold controls at 1. cbn [paused]. rewrite Hp. cbn [negb bind].
  unfold win_banner. unfold won in Hw. unfold controls. cbn [score_l score_r].
  rewrite Hw. reflexivity.
Qed.

Lemma reset_frame_paused (rnd : Rand) (keys : Keys) (g : Game) :
  paused g = true ->
  frame rnd [KEYDOWN K_r] keys g =
  Some (controls keys
          (mkGame (left g) (right g)
                  (fresh_ball screen_center (rnd (drawn g)) (ball g))
                  0 0 (running g) true (show_help g) (S (drawn g)))).
Proof.
  intros Hp. unfold frame. cbn [handle_events handle_event].
  rewrite reset_ball_eq.
  cbn [bind left right ball score_l score_r running paused show_help drawn].
  rewrite Hp. reflexivity.
Qed.

Lemma space_frame (rnd : Rand) (keys : Keys) (g : Game) :
  paused g = true ->
  frame rnd [KEYDOWN K_SPACE] keys g =
  (g1 <- play_step
           (controls keys
              (mkGame (left g) (right g) (ball g) (score_l g) (score_r g)
                      (running g) false (show_help g) (drawn g))) ;;
   g2 <- scoring rnd g1 ;;
   Some (win_banner g2)).
Proof.
  intros Hp. unfold frame. cbn [handle_events handle_event bind].
  rewrite Hp. cbn [negb]. unfold controls at 1. cbn [paused negb].
  destruct (play_step _); reflexivity.
Qed.

Lemma won_right_step :
  play_step
    (controls s_key
       (mkGame (left won_right) (right won_right) (ball won_right)
               (score_l won_right) (score_r won_right)
               (running won_right) false (show_help won_right) (drawn won_right)))
  = Some (mkGame (Paddle.mk (Rect.mk 38 252 PADDLE_W PADDLE_H)
                            (IZR ((1 - 0) * PADDLE_SPEED)))
                 (Paddle.mk (Rect.mk 848 245 PADDLE_W PADDLE_H) 0)
                 (Ball.mk (Rect.mk 449 293 BALL_SIZE BALL_SIZE) 6 0)
                 0 WIN_SCORE true false true 12).
Proof.
  unfold play_step, controls. cbv zeta.
  cbn [left right ball score_l score_r running paused show_help drawn won_right].
  assert (Ea : ai_move (Paddle.init (WIDTH - MARGIN - 18 - PADDLE_W)
                                    (HEIGHT / 2 - PADDLE_H / 2))
                 (Ball.mk (Rect.mk 443 293 BALL_SIZE BALL_SIZE) 6 0)
               = Paddle.mk (Rect.mk 848 245 PADDLE_W PADDLE_H) 0) by reflexivity.
  rewrite Ea.
  assert (Eb : Ball.update (Ball.mk (Rect.mk 443 293 BALL_SIZE BALL_SIZE) 6 0)
               = Ball.mk (Rect.mk 449 293 BALL_SIZE BALL_SIZE) 6 0).
  { unfold Ball.update, Rect.set_x_float, Rect.set_y_float. cbv zeta.
    cbn [Ball.rect Ball.vx Ball.vy Rect.x Rect.y Rect.set_x Rect.set_y Rect.w Rect.h].
    rewrite !nearest_plus_IZR. reflexivity. }
  rewrite Eb.
  assert (El : Paddle.update play_area
                 (Paddle.set_vel
                    (IZR ((b2z (K_s s_key) - b2z (K_w s_key)) * PADDLE_SPEED))
                    (Paddle.init (MARGIN + 18) (HEIGHT / 2 - PADDLE_H / 2)))
               = Paddle.mk (Rect.mk 38 252 PADDLE_W PADDLE_H)
                           (IZR ((1 - 0) * PADDLE_SPEED))).
  { unfold Paddle.update, Rect.set_y_float. cbv zeta.
    cbn [Paddle.set_vel Paddle.init Paddle.rect Paddle.vel Rect.y s_key K_s K_w b2z].
    rewrite nearest_plus_IZR. reflexivity. }
  rewrite El.
  assert (Er : Paddle.update play_area (Paddle.mk (Rect.mk 848 245 PADDLE_W PADDLE_H) 0)
               = Paddle.mk (Rect.mk 848 245 PADDLE_W PADDLE_H) 0).
  { unfold Paddle.update, Rect.set_y_float. cbv zeta.
    cbn [Paddle.rect Paddle.vel Rect.y].
    rewrite nearest_plus_IZR. reflexivity. }
  rewrite Er.
  assert (Ec : clamp_ball_vertical
                 (Ball.mk (Rect.mk 449 293 BALL_SIZE BALL_SIZE) 6 0) play_area
               = Ball.mk (Rect.mk 449 293 BALL_SIZE BALL_SIZE) 6 0) by reflexivity.
  rewrite Ec.
  rewrite collision_miss by reflexivity. cbn [bind].
  rewrite collision_miss by reflexivity. cbn [bind].
  reflexivity.
Qed.

Lemma pushed_out_centery (b : Ball.t) (p : Paddle.t) :
  Rect.centery (pushed_out b p) = Rect.centery (Ball.rect b).
Proof.
  unfold pushed_out. destruct (Rlt_dec _ _); reflexivity.
Qed.

Lemma update_y (b : Ball.t) :
  Rect.y (Ball.rect (Ball.update b)) = nearest (IZR (Rect.y (Ball.rect b)) + Ball.vy b).
Proof. reflexivity. Qed.

Lemma update_x (b : Ball.t) :
  Rect.x (Ball.rect (Ball.update b)) = nearest (IZR (Rect.x (Ball.rect b)) + Ball.vx b).
Proof. reflexivity. Qed.

Lemma near_integer (v : R) (k : Z) :
  (Rabs (v - IZR k) <= 0.49)%R -> (IZR k - / 2 < v < IZR k + / 2)%R.
Proof.
  intros H. assert (H' : (Rabs (v - IZR k) < / 2)%R) by lra.
  apply Rabs_def2 in H'. lra.
Qed.

Lemma updates_hold_y (n : nat) :
  forall b, (Rabs (Ball.vy b) <= 0.49)%R ->
  Rect.y (Ball.rect (updates n b)) = Rect.y (Ball.rect b).
Proof.
  induction n as [ | n IH ]; intros b Hv; cbn [updates]; [ reflexivity | ].
  assert (E : Rect.y (Ball.rect (Ball.update b)) = Rect.y (Ball.rect b)).
  { rewrite update_y, (nearest_shift _ 0); [ lia | ].
    apply near_integer. rewrite Rminus_0_r. exact Hv. }
  rewrite IH; [ exact E | exact Hv ].
Qed.

(** * The claims *)

(** ** C1: the reset key *)

(** C1 (defect in the code).  The claim says that R, pressed in any state,
    zeroes both scores, re-centres the ball with a fresh velocity of speed
    [BALL_SPEED] and puts the game back in play.  The handler of [K_r] does
    the first three and never touches [paused]: from every paused state, so
    from every won state, the frame with R ends with [paused] still true, and
    the frames after it move neither the ball nor a paddle. *)
Theorem reset_leaves_game_paused (rnd : Rand) (keys : Keys) (g : Game) :
  paused g = true ->
  exists g',
    frame rnd [KEYDOWN K_r] keys g = Some g' /\
    score_l g' = 0 /\ score_r g' = 0 /\
    ball g' = fresh_ball screen_center (rnd (drawn g)) (ball g) /\
    Rect.centerx (Ball.rect (ball g')) = WIDTH / 2 /\
    Rect.centery (Ball.rect (ball g')) = HEIGHT / 2 /\
    Ball.speed (ball g') = IZR BALL_SPEED /\
    paused g' = true /\
    forall keys', exists g'',
      frame rnd [] keys' g' = Some g'' /\
      ball g'' = ball g' /\
      Paddle.rect (left g'') = Paddle.rect (left g') /\
      Paddle.rect (right g'') = Paddle.rect (right g') /\
      paused g'' = true.
Proof.
  intros Hp. rewrite (reset_frame_paused rnd keys g Hp).
  eexists. split; [ reflexivity | ].
  cbn [controls score_l score_r ball paused left right].
  destruct (fresh_ball_center screen_center (rnd (drawn g)) (ball g)) as [Ex Ey].
  repeat (split; [ first [ reflexivity | exact Ex | exact Ey
                         | apply fresh_ball_ok ] | ]).
  intros keys'. rewrite paused_frame by reflexivity.
  eexists. split; [ reflexivity | ].
  cbn [controls ball left right paused Paddle.set_vel Paddle.rect].
  rewrite ai_move_rect. cbn [Paddle.set_vel Paddle.rect]. repeat split.
Qed.

(** The same at [won_right], where right has won 11 to 0. *)
Lemma reset_leaves_game_paused_witness :
  won won_right = true /\
  exists g',
    frame sample_rand [KEYDOWN K_r] no_keys won_right = Some g' /\
    score_l g' = 0 /\ score_r g' = 0 /\
    ball g' = fresh_ball screen_center (sample_rand (drawn won_right)) (ball won_right) /\
    Rect.centerx (Ball.rect (ball g')) = WIDTH / 2 /\
    Rect.centery (Ball.rect (ball g')) = HEIGHT / 2 /\
    Ball.speed (ball g') = IZR BALL_SPEED /\
    paused g' = true /\
    forall keys', exists g'',
      frame sample_rand [] keys' g' = Some g'' /\
      ball g'' = ball g' /\
      Paddle.rect (left g'') = Paddle.rect (left g') /\
      Paddle.rect (right g'') = Paddle.rect (right g') /\
      paused g'' = true.
Proof.
  split; [ reflexivity | ].
  apply (reset_leaves_game_paused sample_rand no_keys won_right). reflexivity.
Defined.

(** ** C2: the won state *)

(** C2 (defect in the code).  The claim says that once a score has reached
    11 nothing moves until R is pressed.  The win banner sets [paused] at
    the end of every frame, but Space still toggles it at the start of the
    next one: at [won_right], a frame with Space and the S key held moves
    the ball from x = 443 to 449 and the left paddle from y = 245 to 252,
    and the game is won again at the end of that frame. *)
Theorem space_unfreezes_won_game :
  won won_right = true /\ paused won_right = true /\
  exists g',
    frame sample_rand [KEYDOWN K_SPACE] s_key won_right = Some g' /\
    Rect.x (Ball.rect (ball won_right)) = 443 /\
    Rect.x (Ball.rect (ball g')) = 449 /\
    Rect.y (Paddle.rect (left won_right)) = 245 /\
    Rect.y (Paddle.rect (left g')) = 252 /\
    won g' = true /\ paused g' = true.
Proof.
  split; [ reflexivity | ]. split; [ reflexivity | ].
  rewrite space_frame by reflexivity.
  rewrite won_right_step. cbn [bind].
  rewrite scoring_none by (cbn; lia). cbn [bind].
  eexists. split; [ reflexivity | ].
  repeat split.
Qed.

(** ** C3: scoring *)

(** C3 as stated fails: the test for a point of the right player reads the
    ball's left edge, not its right edge.  At [edge_game] the ball's left
    edge is at 16 and its right edge at 30, still inside the play area
    (whose left edge is 20), and the right player scores. *)
Lemma score_while_right_edge_inside :
  ~ (forall (rnd : Rand) (g g' : Game),
        ball_sized (ball g) ->
        scoring rnd g = Some g' ->
        (score_r g' = score_r g + 1 <->
         Rect.right (Ball.rect (ball g)) <= Rect.left play_area - 4)).
Proof.
  intros H.
  assert (Hs : ball_sized (ball edge_game)) by (split; reflexivity).
  pose proof (H sample_rand edge_game _ Hs
                (scoring_left sample_rand edge_game Hs ltac:(cbn; lia))) as [Hi _].
  cbn in Hi. specialize (Hi eq_refl). lia.
Qed.

(** C3 (amended).  In the scoring step the right player gets a point
    exactly when the ball's left edge is at or beyond the left edge of the
    play area minus 4, the left player exactly when the ball's right edge is
    at or beyond the right edge plus 4; a score grows by at most 1; a ball
    whose x is below 20 - 4 gives the right player a point; after a point
    the ball is the one [reset] builds at the centre of the screen, with
    speed [BALL_SPEED]; without a point the ball is left alone. *)
Theorem scoring_rule (rnd : Rand) (g : Game) :
  ball_sized (ball g) ->
  exists g',
    scoring rnd g = Some g' /\
    (score_r g' = score_r g + 1 <->
     Rect.left (Ball.rect (ball g)) <= Rect.left play_area - 4) /\
    (score_l g' = score_l g + 1 <->
     Rect.right (Ball.rect (ball g)) >= Rect.right play_area + 4) /\
    (score_r g' = score_r g \/ score_r g' = score_r g + 1) /\
    (score_l g' = score_l g \/ score_l g' = score_l g + 1) /\
    (Rect.x (Ball.rect (ball g)) < 20 - 4 -> score_r g' = score_r g + 1) /\
    (score_l g' + score_r g' = score_l g + score_r g + 1 ->
     ball g' = fresh_ball screen_center (rnd (drawn g)) (ball g) /\
     Rect.centerx (Ball.rect (ball g')) = WIDTH / 2 /\
     Rect.centery (Ball.rect (ball g')) = HEIGHT / 2 /\
     Ball.speed (ball g') = IZR BALL_SPEED) /\
    (score_l g' + score_r g' = score_l g + score_r g -> ball g' = ball g).
Proof.
  intros Hs. pose proof Hs as [Hw _].
  assert (Hrl : Rect.right (Ball.rect (ball g)) = Rect.left (Ball.rect (ball g)) + 14)
    by (unfold Rect.right, Rect.left; rewrite Hw; reflexivity).
  assert (Hx : Rect.x (Ball.rect (ball g)) = Rect.left (Ball.rect (ball g)))
    by reflexivity.
  assert (Epl : Rect.left play_area - 4 = 16) by reflexivity.
  assert (Epr : Rect.right play_area + 4 = 884) by reflexivity.
  destruct (fresh_ball_center screen_center (rnd (drawn g)) (ball g)) as [Ex Ey].
  pose proof (proj1 (fresh_ball_ok screen_center (rnd (drawn g)) (ball g))) as Hsp.
  destruct (Z_le_gt_dec (Rect.left (Ball.rect (ball g))) (Rect.left play_area - 4))
    as [L | L].
  - rewrite (scoring_left rnd g Hs L). eexists. split; [ reflexivity | ].
    cbn [score_l score_r ball]. rewrite Epl, Epr in *.
    repeat split; intros; try lia; auto.
  - destruct (Z_le_gt_dec (Rect.right play_area + 4) (Rect.right (Ball.rect (ball g))))
      as [Rr | Rr].
    + rewrite (scoring_right rnd g) by lia. eexists. split; [ reflexivity | ].
      cbn [score_l score_r ball]. rewrite Epl, Epr in *.
      repeat split; intros; try lia; auto.
    + rewrite (scoring_none rnd g) by lia. eexists. split; [ reflexivity | ].
      rewrite Epl, Epr in *.
      repeat split; intros; try lia; auto.
Qed.

Lemma scoring_rule_witness :
  exists g',
    scoring sample_rand edge_game = Some g' /\
    (score_r g' = score_r edge_game + 1 <->
     Rect.left (Ball.rect (ball edge_game)) <= Rect.left play_area - 4) /\
    (score_l g' = score_l edge_game + 1 <->
     Rect.right (Ball.rect (ball edge_game)) >= Rect.right play_area + 4) /\
    (score_r g' = score_r edge_game \/ score_r g' = score_r edge_game + 1) /\
    (score_l g' = score_l edge_game \/ score_l g' = score_l edge_game + 1) /\
    (Rect.x (Ball.rect (ball edge_game)) < 20 - 4 ->
     score_r g' = score_r edge_game + 1) /\
    (score_l g' + score_r g' = score_l edge_game + score_r edge_game + 1 ->
     ball g' = fresh_ball screen_center (sample_rand (drawn edge_game)) (ball edge_game) /\
     Rect.centerx (Ball.rect (ball g')) = WIDTH / 2 /\
     Rect.centery (Ball.rect (ball g')) = HEIGHT / 2 /\
     Ball.speed (ball g') = IZR BALL_SPEED) /\
    (score_l g' + score_r g' = score_l edge_game + score_r edge_game ->
     ball g' = ball edge_game).
Proof.
  apply (scoring_rule sample_rand edge_game). split; reflexivity.
Defined.

(** ** C4: the velocity after a reset *)

(** C4 (defect in the code).  The claim, like the comment in [reset], says
    the vertical component is never zero.  [random.uniform(-0.8, 0.8)]
    returns 0.0 when [random.random()] returns 0.5, and [reset] then builds
    the velocity (6, 0): the speed is [BALL_SPEED] and [vx] is not zero, but
    [vy] is. *)
Theorem reset_can_stop_vertical_motion (c : Z * Z) (b : Ball.t) :
  valid_draw sample_draw /\
  Ball.dir_y sample_draw = 0%R /\
  exists b',
    Ball.reset c sample_draw b = Some b' /\
    Ball.vx b' = 6%R /\ Ball.vy b' = 0%R /\
    Ball.speed b' = IZR BALL_SPEED.
Proof.
  split; [ exact sample_draw_valid | ].
  split; [ apply sample_dir | ].
  rewrite reset_fresh. eexists. split; [ reflexivity | ].
  pose proof (proj1 (fresh_ball_ok c sample_draw b)) as Hsp.
  rewrite fresh_sample in *. repeat split. exact Hsp.
Qed.

(** ** C5: paddle bounces *)

(** C5.  For every ball the program can build and every paddle its
    rectangle intersects, [ball_paddle_collision] returns a ball whose speed
    is the speed before the bounce and whose [vx] has the opposite sign; when
    the ball's vertical centre is the paddle's (offset 0), the new [vy] is 0. *)
Theorem paddle_bounce_keeps_speed (b : Ball.t) (p : Paddle.t) :
  ball_state b ->
  Rect.colliderect (Ball.rect b) (Paddle.rect p) = true ->
  exists b',
    ball_paddle_collision b p = Some b' /\
    Ball.speed b' = Ball.speed b /\
    (Ball.vx b * Ball.vx b' < 0)%R /\
    (Rect.centery (Ball.rect b) = Rect.centery (Paddle.rect p) ->
     bounce_offset b p = 0%R /\ Ball.vy b' = 0%R).
Proof.
  intros Hb Hc. destruct (ball_state_ok b Hb) as [Hs Hx].
  destruct (collision_ok b p (conj Hs Hx)) as [b' [E [Hs' _]]].
  exists b'. split; [ exact E | ]. split; [ congruence | ].
  rewrite (collision_hit b p Hc Hx) in E. injection E as <-.
  pose proof (collision_speed_pos b (bounce_offset b p) Hx) as Hpos.
  assert (Hf : (0 < IZR BALL_SPEED / collision_speed b (bounce_offset b p))%R)
    by (apply Rdiv_lt_0_compat; [ unfold BALL_SPEED; lra | exact Hpos ]).
  cbn [Ball.vx Ball.vy]. split.
  - assert (0 < Ball.vx b * Ball.vx b)%R by nra. nra.
  - intros Hcy.
    assert (Eo : bounce_offset b p = 0%R).
    { unfold bounce_offset. rewrite pushed_out_centery, Hcy, Z.sub_diag.
      unfold Rdiv. apply Rmult_0_l. }
    split; [ exact Eo | ]. rewrite Eo. lra.
Qed.

Lemma paddle_bounce_keeps_speed_witness :
  exists b',
    ball_paddle_collision hit_ball hit_paddle = Some b' /\
    Ball.speed b' = Ball.speed hit_ball /\
    (Ball.vx hit_ball * Ball.vx b' < 0)%R /\
    (Rect.centery (Ball.rect hit_ball) = Rect.centery (Paddle.rect hit_paddle) ->
     bounce_offset hit_ball hit_paddle = 0%R /\ Ball.vy b' = 0%R).
Proof.
  apply (paddle_bounce_keeps_speed hit_ball hit_paddle).
  - apply fresh_ball_state. unfold valid_draw, sample_draw. cbn [u]. lra.
  - reflexivity.
Defined.

(** ** C6: the speed budget *)

(** C6.  [reset] always yields speed [BALL_SPEED]; the wall clamp keeps
    the speed; a paddle bounce yields speed [BALL_SPEED]; hence every ball
    built by any number of resets, moves, wall bounces and paddle bounces,
    and the ball of every state the frame loop reaches, has speed
    [BALL_SPEED]. *)
Theorem speed_budget_invariant :
  (forall c d b b', Ball.reset c d b = Some b' -> Ball.speed b' = IZR BALL_SPEED) /\
  (forall b bounds, Ball.speed (clamp_ball_vertical b bounds) = Ball.speed b) /\
  (forall b p b', Ball.vx b <> 0%R ->
     Rect.colliderect (Ball.rect b) (Paddle.rect p) = true ->
     ball_paddle_collision b p = Some b' -> Ball.speed b' = IZR BALL_SPEED) /\
  (forall b, ball_state b -> Ball.speed b = IZR BALL_SPEED) /\
  (forall rnd g, valid_rand rnd -> reachable rnd g ->
     Ball.speed (ball g) = IZR BALL_SPEED).
Proof.
  split; [ | split; [ | split; [ | split ] ] ].
  - intros c d b b' E. apply (reset_ok c d b b' E).
  - intros b bounds. unfold Ball.speed.
    destruct (clamp_vel b bounds) as [-> [-> | ->]]; [ reflexivity | ].
    f_equal. lra.
  - intros b p b' Hx Hc E.
    rewrite (collision_hit b p Hc Hx) in E. injection E as <-.
    unfold Ball.speed, BALL_SPEED. cbn [Ball.vx Ball.vy].
    apply normalized_speed; [ reflexivity | apply collision_speed_pos, Hx ].
  - intros b Hb. apply (ball_state_ok b Hb).
  - intros rnd g Hr Hg. apply ball_state_ok, (reachable_ball_state rnd g Hr Hg).
Qed.

Lemma speed_budget_invariant_witness :
  Ball.speed hit_ball = IZR BALL_SPEED /\
  Ball.speed (ball first_game) = IZR BALL_SPEED.
Proof.
  destruct speed_budget_invariant as (_ & _ & _ & Hb & Hg). split.
  - apply Hb. apply fresh_ball_state. unfold valid_draw, sample_draw. cbn [u]. lra.
  - apply (Hg sample_rand first_game).
    + intros n. unfold valid_draw, sample_rand, sample_draw. cbn [u]. lra.
    + apply reach_init. apply init_eq.
Defined.

(** ** C7: paddles stay in the play area *)

(** C7.  Whatever the paddle's velocity, after [Paddle.update] against
    bounds at least as high as the paddle (the play area is), the paddle
    lies within their vertical span: [paddle.top >= bounds.top] and
    [paddle.bottom <= bounds.bottom].  The move is made first and clamped
    afterwards; it changes neither the paddle's height nor its x. *)
Theorem paddle_update_within_bounds (bounds : Rect.t) (p : Paddle.t) :
  Rect.h (Paddle.rect p) <= Rect.h bounds ->
  Rect.top (Paddle.rect (Paddle.update bounds p)) >= Rect.top bounds /\
  Rect.bottom (Paddle.rect (Paddle.update bounds p)) <= Rect.bottom bounds /\
  Rect.h (Paddle.rect (Paddle.update bounds p)) = Rect.h (Paddle.rect p) /\
  Rect.x (Paddle.rect (Paddle.update bounds p)) = Rect.x (Paddle.rect p).
Proof.
  intros Hh. destruct (paddle_update_rect bounds p Hh) as [Eh [Ht Hb]].
  split; [ lia | ]. split; [ exact Hb | ]. split; [ exact Eh | ].
  unfold Paddle.update. cbv zeta. cbn [Paddle.rect].
  destruct (_ <? _); destruct (_ >? _); reflexivity.
Qed.

Lemma paddle_update_within_bounds_witness :
  Rect.top (Paddle.rect (Paddle.update play_area fast_paddle)) >= Rect.top play_area /\
  Rect.bottom (Paddle.rect (Paddle.update play_area fast_paddle)) <= Rect.bottom play_area /\
  Rect.h (Paddle.rect (Paddle.update play_area fast_paddle)) = Rect.h (Paddle.rect fast_paddle) /\
  Rect.x (Paddle.rect (Paddle.update play_area fast_paddle)) = Rect.x (Paddle.rect fast_paddle).
Proof.
  apply (paddle_update_within_bounds play_area fast_paddle).
  apply Z.leb_le. reflexivity.
Defined.

(** ** C8: wall bounces *)



(** ** C9: no division by zero *)

(** C9.  The divisor of [reset] is at least 1 for every draw, so [reset]
    never fails; every ball the program can build has a nonzero [vx], hence
    a nonzero speed before normalization whatever the offset, so
    [ball_paddle_collision] never fails on it; the initial state exists and
    every frame from a reachable state returns a state. *)
Theorem no_division_by_zero :
  (forall d, (1 <= Ball.reset_mag d)%R) /\
  (forall c d b, exists b', Ball.reset c d b = Some b') /\
  (forall b, ball_state b ->
     Ball.vx b <> 0%R /\
     (forall o, collision_speed b o <> 0%R) /\
     (forall p, exists b', ball_paddle_collision b p = Some b')) /\
  (forall rnd, exists g, init rnd = Some g) /\
  (forall rnd g evs keys, valid_rand rnd -> reachable rnd g ->
     exists g', frame rnd evs keys g = Some g').
Proof.
  split; [ exact reset_mag_ge_1 | ].
  split; [ intros c d b; eexists; apply reset_fresh | ].
  split; [ | split ].
  - intros b Hb. pose proof (ball_state_ok b Hb) as Hok.
    split; [ apply Hok | ]. split.
    + intros o. pose proof (collision_speed_pos b o (proj2 Hok)). lra.
    + intros p. destruct (collision_ok b p Hok) as [b' [E _]]. exists b'. exact E.
  - intros rnd. eexists. apply init_eq.
  - intros rnd g evs keys Hr Hg.
    destruct (frame_inv rnd evs keys g Hr (reachable_inv rnd g Hr Hg)) as [g' [E _]].
    exists g'. exact E.
Qed.

Lemma no_division_by_zero_witness :
  Ball.vx hit_ball <> 0%R /\
  (exists b', ball_paddle_collision hit_ball hit_paddle = Some b') /\
  exists g', frame sample_rand [KEYDOWN K_r] s_key first_game = Some g'.
Proof.
  destruct no_division_by_zero as (_ & _ & Hb & _ & Hf).
  destruct (Hb hit_ball) as (Hx & _ & Hc).
  - apply fresh_ball_state. unfold valid_draw, sample_draw. cbn [u]. lra.
  - split; [ exact Hx | ]. split; [ apply Hc | ].
    apply Hf.
    + intros n. unfold valid_draw, sample_rand, sample_draw. cbn [u]. lra.
    + apply reach_init. apply init_eq.
Defined.

(** ** C10: integer positions *)

(** C10 as stated fails: [rising_ball], the ball [reset] leaves at the
    centre for the draw [rising_draw], has a vertical velocity between -0.72
    and -0.6, and one update moves it from y = 293 to y = 292, the nearest
    integer to a sum between 292.28 and 292.4. *)
Lemma slow_rising_ball_moves :
  ~ (forall (b : Ball.t) (n : nat),
        (Rabs (Ball.vy b) < 1)%R ->
        Rect.y (Ball.rect (updates n b)) = Rect.y (Ball.rect b)).
Proof.
  intros H. specialize (H rising_ball 1%nat).
  pose proof rising_ball_vy as Hv.
  assert (Ha : (Rabs (Ball.vy rising_ball) < 1)%R)
    by (apply Rabs_def1; lra).
  specialize (H Ha). cbn [updates] in H.
  rewrite update_y in H.
  assert (Ey : Rect.y (Ball.rect rising_ball) = 293) by reflexivity.
  rewrite Ey in H.
  rewrite (nearest_shift 293 (-1)) in H by lra. discriminate H.
Qed.

(** C10 (amended).  Positions are integers.  [Ball.update] stores the
    nearest integer to position plus velocity, so the displacement in a
    frame is the velocity rounded to the nearest integer: a component
    within 0.49 of an integer k moves the ball by exactly k.  In particular
    a ball whose vertical velocity is at most 0.49 in magnitude keeps its
    vertical position over any number of updates. *)
Theorem ball_update_rounds (b : Ball.t) (k : Z) (n : nat) :
  ((Rabs (Ball.vx b - IZR k) <= 0.49)%R ->
   Rect.x (Ball.rect (Ball.update b)) = Rect.x (Ball.rect b) + k) /\
  ((Rabs (Ball.vy b - IZR k) <= 0.49)%R ->
   Rect.y (Ball.rect (Ball.update b)) = Rect.y (Ball.rect b) + k) /\
  ((Rabs (Ball.vy b) <= 0.49)%R ->
   Rect.y (Ball.rect (updates n b)) = Rect.y (Ball.rect b)).
Proof.
  split; [ | split ].
  - intros Hv. rewrite update_x. apply nearest_shift, near_integer, Hv.
  - intros Hv. rewrite update_y. apply nearest_shift, near_integer, Hv.
  - apply updates_hold_y.
Qed.

Lemma ball_update_rounds_witness :
  Rect.y (Ball.rect (Ball.update rising_ball)) = Rect.y (Ball.rect rising_ball) + -1 /\
  Rect.y (Ball.rect (updates 1000 creeping_ball)) = Rect.y (Ball.rect creeping_ball).
Proof.
  split.
  - apply (ball_update_rounds rising_ball (-1) 0).
    pose proof rising_ball_vy as Hv. apply Rabs_le. lra.
  - apply (ball_update_rounds creeping_ball 0 1000).
    exact creeping_ball_vy.
Defined.

(** * Further properties of the code *)

Lemma paddle_update_y (bounds : Rect.t) (p : Paddle.t) :
  Rect.y (Paddle.rect (Paddle.update bounds p)) =
  clamp_y bounds (Rect.h (Paddle.rect p))
          (nearest (IZR (Rect.y (Paddle.rect p)) + Paddle.vel p)).
Proof.
  unfold Paddle.update, clamp_y, Rect.set_y_float. cbv zeta. cbn [Paddle.rect].
  set (y1 := nearest _).
  unfold Rect.set_bottom, Rect.set_top, Rect.set_y, Rect.top, Rect.bottom.
  cbn [Rect.y].
  destruct (y1 <? Rect.y bounds) eqn:E1;
    [ apply Z.ltb_lt in E1 | apply Z.ltb_ge in E1 ];
    cbn [Rect.x Rect.y Rect.w Rect.h];
    match goal with |- context [?a >? ?b] => destruct (a >? b) eqn:E2 end;
    rewrite Z.gtb_ltb in E2;
    [ apply Z.ltb_lt in E2 | apply Z.ltb_ge in E2
    | apply Z.ltb_lt in E2 | apply Z.ltb_ge in E2 ];
    cbn [Rect.x Rect.y Rect.w Rect.h]; lia.
Qed.

(** X1.  The computer's paddle, one frame ([ai_move] then
    [Paddle.update]): when its centre is more than 12 above the ball's
    centre it moves down by 6, when it is more than 12 below it moves up by
    6 (the velocity is 6.3 either way and the stored position is the
    nearest integer), and inside the band of 12 it keeps its y; the result
    is then clamped to the bounds. *)
Theorem ai_paddle_step (bounds : Rect.t) (p : Paddle.t) (b : Ball.t) :
  let y := Rect.y (Paddle.rect p) in
  let h := Rect.h (Paddle.rect p) in
  let diff := Rect.centery (Paddle.rect p) - Rect.centery (Ball.rect b) in
  let y' := Rect.y (Paddle.rect (Paddle.update bounds (ai_move p b))) in
  (diff < - 12 -> y' = clamp_y bounds h (y + 6)) /\
  (12 < diff -> y' = clamp_y bounds h (y - 6)) /\
  (- 12 <= diff <= 12 -> y' = clamp_y bounds h y).
Proof.
  cbv zeta. rewrite !paddle_update_y, !ai_move_rect.
  unfold ai_move. cbv zeta.
  destruct (Rect.centery (Paddle.rect p) <? Rect.centery (Ball.rect b) - 12) eqn:E1;
    [ apply Z.ltb_lt in E1 | apply Z.ltb_ge in E1 ].
  - cbn [Paddle.set_vel Paddle.vel].
    rewrite (nearest_shift _ 6) by (unfold PADDLE_SPEED; lra).
    repeat split; intros; try lia; reflexivity.
  - destruct (Rect.centery (Paddle.rect p) >? Rect.centery (Ball.rect b) + 12) eqn:E2;
      rewrite Z.gtb_ltb in E2;
      [ apply Z.ltb_lt in E2 | apply Z.ltb_ge in E2 ];
      cbn [Paddle.set_vel Paddle.vel].
    + rewrite (nearest_shift _ (-6)) by (unfold PADDLE_SPEED; cbn [Z.opp]; lra).
      repeat split; intros; try lia; reflexivity.
    + rewrite (nearest_shift _ 0) by lra. rewrite Z.add_0_r.
      repeat split; intros; try lia; reflexivity.
Qed.

Lemma ai_paddle_step_witness :
  Rect.y (Paddle.rect (Paddle.update play_area (ai_move ai_paddle low_ball))) =
  clamp_y play_area (Rect.h (Paddle.rect ai_paddle)) (Rect.y (Paddle.rect ai_paddle) + 6)
  /\
  Rect.y (Paddle.rect (Paddle.update play_area (ai_move ai_paddle high_ball))) =
  clamp_y play_area (Rect.h (Paddle.rect ai_paddle)) (Rect.y (Paddle.rect ai_paddle) - 6).
Proof.
  split.
  - apply (ai_paddle_step play_area ai_paddle low_ball). reflexivity.
  - apply (ai_paddle_step play_area ai_paddle high_ball). reflexivity.
Defined.

(** X2.  The human paddle, one frame: after [controls] and
    [Paddle.update] its y is the old y plus 7 for S, minus 7 for W, clamped
    to the play area; with both keys or neither a paddle inside the play
    area does not move. *)
Theorem human_paddle_step (keys : Keys) (g : Game) :
  Rect.y (Paddle.rect (Paddle.update play_area (left (controls keys g)))) =
  clamp_y play_area (Rect.h (Paddle.rect (left g)))
          (Rect.y (Paddle.rect (left g))
           + (b2z (K_s keys) - b2z (K_w keys)) * PADDLE_SPEED)
  /\ (K_s keys = K_w keys ->
      v_inside (Paddle.rect (left g)) play_area ->
      Rect.y (Paddle.rect (Paddle.update play_area (left (controls keys g)))) =
      Rect.y (Paddle.rect (left g))).
Proof.
  assert (E : Rect.y (Paddle.rect (Paddle.update play_area (left (controls keys g)))) =
    clamp_y play_area (Rect.h (Paddle.rect (left g)))
          (Rect.y (Paddle.rect (left g))
           + (b2z (K_s keys) - b2z (K_w keys)) * PADDLE_SPEED)).
  { rewrite paddle_update_y. unfold controls. cbn [left Paddle.set_vel Paddle.rect Paddle.vel].
    rewrite nearest_plus_IZR. reflexivity. }
  split; [ exact E | ].
  intros Hk [Ht Hb]. rewrite E, Hk, Z.sub_diag, Z.mul_0_l, Z.add_0_r.
  unfold clamp_y, Rect.top, Rect.bottom in *. lia.
Qed.

Lemma human_paddle_step_witness :
  Rect.y (Paddle.rect (Paddle.update play_area (left (controls no_keys first_game)))) =
  Rect.y (Paddle.rect (left first_game)).
Proof.
  apply (human_paddle_step no_keys first_game).
  - reflexivity.
  - split; apply Z.leb_le; reflexivity.
Defined.

Lemma valid_dir_y (d : Draw) : valid_draw d -> (- 0.8 <= Ball.dir_y d < 0.8)%R.
Proof. unfold valid_draw, Ball.dir_y, uniform. intros H. lra. Qed.

(** X3.  The velocity [Ball.reset] builds for a draw in range: the
    vertical component is at most 0.8 times the horizontal one, the
    horizontal one is at least 4.5 in magnitude, and its sign is the sign
    [random.choice] picked. *)
Theorem reset_velocity_shape (c : Z * Z) (d : Draw) (b : Ball.t) :
  valid_draw d ->
  exists b',
    Ball.reset c d b = Some b' /\
    (Rabs (Ball.vy b') <= 0.8 * Rabs (Ball.vx b'))%R /\
    (4.5 <= Rabs (Ball.vx b'))%R /\
    (pick d = true -> (0 < Ball.vx b')%R) /\
    (pick d = false -> (Ball.vx b' < 0)%R).
Proof.
  intros Hd. rewrite reset_fresh. eexists. split; [ reflexivity | ].
  unfold fresh_ball, BALL_SPEED, Rdiv. cbn [Ball.vx Ball.vy].
  pose proof (valid_dir_y d Hd) as Hy.
  pose proof (reset_mag_ge_1 d) as Hm.
  pose proof (reset_mag_sqr d) as Hmm.
  pose proof (inv_mag_bounds d) as Hi.
  assert (Him : (/ Ball.reset_mag d * Ball.reset_mag d = 1)%R)
    by (apply Rinv_l; lra).
  set (m := Ball.reset_mag d) in *. set (i := (/ m)%R) in *.
  set (dy := Ball.dir_y d) in *.
  assert (Hm43 : (m <= 4 / 3)%R) by nra.
  assert (Hi34 : (3 / 4 <= i)%R) by nra.
  assert (Hx : (Ball.dir_x d = 1 \/ Ball.dir_x d = -1)%R)
    by (unfold Ball.dir_x, choice; destruct (pick d); simpl; lra).
  assert (Hax : Rabs (6 * (Ball.dir_x d * i)) = (6 * i)%R).
  { destruct Hx as [-> | ->].
    - rewrite Rabs_right; lra.
    - rewrite Rabs_left; lra. }
  rewrite Hax.
  split; [ | split; [ lra | split ] ].
  - apply Rabs_le. nra.
  - intros Hp. unfold Ball.dir_x, choice. rewrite Hp. simpl. lra.
  - intros Hp. unfold Ball.dir_x, choice. rewrite Hp. simpl. lra.
Qed.

Lemma reset_velocity_shape_witness :
  exists b',
    Ball.reset screen_center slow_draw slow_ball = Some b' /\
    (Rabs (Ball.vy b') <= 0.8 * Rabs (Ball.vx b'))%R /\
    (4.5 <= Rabs (Ball.vx b'))%R /\
    (pick slow_draw = true -> (0 < Ball.vx b')%R) /\
    (pick slow_draw = false -> (Ball.vx b' < 0)%R).
Proof.
  apply (reset_velocity_shape screen_center slow_draw slow_ball).
  unfold valid_draw, slow_draw. cbn [u]. lra.
Defined.

Lemma collide_positive (a b : Rect.t) :
  0 < Rect.w a -> 0 < Rect.w b ->
  Rect.colliderect a b = true ->
  Rect.left a < Rect.right b /\ Rect.left b < Rect.right a.
Proof.
  intros Ha Hb. unfold Rect.colliderect, Rect.left, Rect.right.
  destruct (_ || _); [ discriminate | ].
  rewrite !andb_true_iff, !Z.ltb_lt, !Z.gtb_ltb, !Z.ltb_lt. lia.
Qed.

Lemma not_collide_touching (a b : Rect.t) :
  0 < Rect.w a -> 0 < Rect.w b ->
  Rect.right b <= Rect.left a \/ Rect.right a <= Rect.left b ->
  Rect.colliderect a b = false.
Proof.
  intros Ha Hb H. unfold Rect.colliderect, Rect.left, Rect.right in *.
  destruct (_ || _); [ reflexivity | ].
  apply not_true_is_false. rewrite !andb_true_iff, !Z.ltb_lt, !Z.gtb_ltb, !Z.ltb_lt. lia.
Qed.

Lemma pushed_out_side (b : Ball.t) (p : Paddle.t) :
  ((Ball.vx b < 0)%R ->
   Rect.left (pushed_out b p) = Rect.right (Paddle.rect p)) /\
  ((0 < Ball.vx b)%R ->
   Rect.right (pushed_out b p) = Rect.left (Paddle.rect p)) /\
  (Rect.left (pushed_out b p) = Rect.right (Paddle.rect p) \/
   Rect.right (pushed_out b p) = Rect.left (Paddle.rect p)).
Proof.
  unfold pushed_out. destruct (Rlt_dec (Ball.vx b) 0) as [Hn | Hn].
  - split; [ reflexivity | ]. split; [ intros; lra | left; reflexivity ].
  - assert (Er : Rect.right (Rect.set_right (Rect.left (Paddle.rect p)) (Ball.rect b))
                 = Rect.left (Paddle.rect p))
      by (unfold Rect.right, Rect.set_right, Rect.set_x; cbn [Rect.x Rect.w]; lia).
    split; [ intros; lra | ]. split; [ intros _; exact Er | right; exact Er ].
Qed.

Lemma collision_hit_rect (b : Ball.t) (p : Paddle.t) (b' : Ball.t) :
  Ball.vx b <> 0%R ->
  Rect.colliderect (Ball.rect b) (Paddle.rect p) = true ->
  ball_paddle_collision b p = Some b' ->
  Ball.rect b' = pushed_out b p.
Proof.
  intros Hx Hc E. rewrite (collision_hit b p Hc Hx) in E. injection E as <-.
  reflexivity.
Qed.

(** X4.  A paddle bounce leaves the ball outside the paddle: for a ball
    the program can build and rectangles of positive width that intersect,
    the returned ball no longer intersects the paddle; a ball that was
    moving left sits flush against the paddle's right edge and now moves
    right, a ball that was moving right sits flush against the paddle's left
    edge and now moves left; its y and its size are unchanged. *)
Theorem bounce_pushes_ball_out (b : Ball.t) (p : Paddle.t) :
  ball_state b ->
  0 < Rect.w (Ball.rect b) -> 0 < Rect.w (Paddle.rect p) ->
  Rect.colliderect (Ball.rect b) (Paddle.rect p) = true ->
  exists b',
    ball_paddle_collision b p = Some b' /\
    Rect.colliderect (Ball.rect b') (Paddle.rect p) = false /\
    ((Ball.vx b < 0)%R ->
     Rect.left (Ball.rect b') = Rect.right (Paddle.rect p) /\ (0 < Ball.vx b')%R) /\
    ((0 < Ball.vx b)%R ->
     Rect.right (Ball.rect b') = Rect.left (Paddle.rect p) /\ (Ball.vx b' < 0)%R) /\
    Rect.y (Ball.rect b') = Rect.y (Ball.rect b) /\
    Rect.w (Ball.rect b') = Rect.w (Ball.rect b) /\
    Rect.h (Ball.rect b') = Rect.h (Ball.rect b).
Proof.
  intros Hb Hwb Hwp Hc. destruct (ball_state_ok b Hb) as [_ Hx].
  rewrite (collision_hit b p Hc Hx). eexists. split; [ reflexivity | ].
  pose proof (collision_speed_pos b (bounce_offset b p) Hx) as Hpos.
  assert (Hf : (0 < IZR BALL_SPEED / collision_speed b (bounce_offset b p))%R)
    by (apply Rdiv_lt_0_compat; [ unfold BALL_SPEED; lra | exact Hpos ]).
  cbn [Ball.rect Ball.vx].
  destruct (pushed_out_size b p) as (Ew & Eh & Ey).
  destruct (pushed_out_side b p) as (Hl & Hr & Hor).
  split.
  - apply not_collide_touching; [ rewrite Ew; exact Hwb | exact Hwp | ].
    destruct Hor as [E | E]; rewrite E; [ left | right ]; lia.
  - repeat split; try assumption.
    + apply Hl; assumption.
    + nra.
    + apply Hr; assumption.
    + nra.
Qed.

Lemma bounce_pushes_ball_out_witness :
  exists b',
    ball_paddle_collision hit_ball hit_paddle = Some b' /\
    Rect.colliderect (Ball.rect b') (Paddle.rect hit_paddle) = false /\
    ((Ball.vx hit_ball < 0)%R ->
     Rect.left (Ball.rect b') = Rect.right (Paddle.rect hit_paddle) /\ (0 < Ball.vx b')%R) /\
    ((0 < Ball.vx hit_ball)%R ->
     Rect.right (Ball.rect b') = Rect.left (Paddle.rect hit_paddle) /\ (Ball.vx b' < 0)%R) /\
    Rect.y (Ball.rect b') = Rect.y (Ball.rect hit_ball) /\
    Rect.w (Ball.rect b') = Rect.w (Ball.rect hit_ball) /\
    Rect.h (Ball.rect b') = Rect.h (Ball.rect hit_ball).
Proof.
  apply (bounce_pushes_ball_out hit_ball hit_paddle).
  - apply fresh_ball_state. unfold valid_draw, sample_draw. cbn [u]. lra.
  - reflexivity.
  - reflexivity.
  - reflexivity.
Defined.

(** X5.  The spin of a paddle bounce follows the point of impact: a ball
    whose vertical centre is below the paddle's leaves downwards ([vy]
    positive), one whose centre is above leaves upwards, whatever its
    vertical velocity was before. *)
Theorem bounce_spin_direction (b : Ball.t) (p : Paddle.t) :
  ball_state b ->
  Rect.colliderect (Ball.rect b) (Paddle.rect p) = true ->
  exists b',
    ball_paddle_collision b p = Some b' /\
    (Rect.centery (Ball.rect b) > Rect.centery (Paddle.rect p) -> (0 < Ball.vy b')%R) /\
    (Rect.centery (Ball.rect b) < Rect.centery (Paddle.rect p) -> (Ball.vy b' < 0)%R).
Proof.
  intros Hb Hc. destruct (ball_state_ok b Hb) as [_ Hx].
  rewrite (collision_hit b p Hc Hx). eexists. split; [ reflexivity | ].
  pose proof (collision_speed_pos b (bounce_offset b p) Hx) as Hpos.
  assert (Hf : (0 < IZR BALL_SPEED / collision_speed b (bounce_offset b p))%R)
    by (apply Rdiv_lt_0_compat; [ unfold BALL_SPEED; lra | exact Hpos ]).
  cbn [Ball.vx Ball.vy].
  set (f := (IZR BALL_SPEED / collision_speed b (bounce_offset b p))%R) in *.
  assert (Ho : bounce_offset b p =
               (IZR (Rect.centery (Ball.rect b) - Rect.centery (Paddle.rect p)) * (2 / 110))%R).
  { unfold bounce_offset. rewrite pushed_out_centery. unfold PADDLE_H. field. }
  unfold BALL_SPEED in *.
  split.
  - intros Hgt. rewrite Ho.
    assert (0 < IZR (Rect.centery (Ball.rect b) - Rect.centery (Paddle.rect p)))%R
      by (apply IZR_lt; lia).
    apply Rmult_lt_0_compat; [ | exact Hf ]. nra.
  - intros Hlt. rewrite Ho.
    assert (IZR (Rect.centery (Ball.rect b) - Rect.centery (Paddle.rect p)) < 0)%R
      by (apply IZR_lt; lia).
    assert (0 < - ((6 + 0.5) *
              (IZR (Rect.centery (Ball.rect b) - Rect.centery (Paddle.rect p)) * (2 / 110))))%R
      by nra.
    nra.
Qed.

Lemma bounce_spin_direction_witness :
  exists b',
    ball_paddle_collision low_hit_ball hit_paddle = Some b' /\
    (Rect.centery (Ball.rect low_hit_ball) > Rect.centery (Paddle.rect hit_paddle) ->
     (0 < Ball.vy b')%R) /\
    (Rect.centery (Ball.rect low_hit_ball) < Rect.centery (Paddle.rect hit_paddle) ->
     (Ball.vy b' < 0)%R).
Proof.
  apply (bounce_spin_direction low_hit_ball hit_paddle).
  - apply fresh_ball_state. unfold valid_draw, sample_draw. cbn [u]. lra.
  - reflexivity.
Defined.

(** X6.  With the paddles where [main] puts them (x = 38 and x = 848,
    width 14) and a ball of width 14, the two collision tests of a frame
    never both bounce the ball: a ball that hits the left paddle does not
    touch the right one, before or after being pushed out, so the second
    call returns the ball unchanged. *)
Theorem one_bounce_per_frame (b : Ball.t) (l r : Paddle.t) :
  ball_state b -> ball_sized b ->
  Rect.x (Paddle.rect l) = MARGIN + 18 -> Rect.w (Paddle.rect l) = PADDLE_W ->
  Rect.x (Paddle.rect r) = WIDTH - MARGIN - 18 - PADDLE_W ->
  Rect.w (Paddle.rect r) = PADDLE_W ->
  exists b1 b2,
    ball_paddle_collision b l = Some b1 /\
    ball_paddle_collision b1 r = Some b2 /\
    (Rect.colliderect (Ball.rect b) (Paddle.rect l) = true -> b2 = b1) /\
    (Rect.colliderect (Ball.rect b) (Paddle.rect l) = false -> b1 = b) /\
    (Rect.colliderect (Ball.rect b) (Paddle.rect l) = true ->
     Rect.colliderect (Ball.rect b) (Paddle.rect r) = false).
Proof.
  intros Hb [Hw Hh] Hlx Hlw Hrx Hrw.
  assert (Hwb : 0 < Rect.w (Ball.rect b)) by (rewrite Hw; reflexivity).
  assert (Hwl : 0 < Rect.w (Paddle.rect l)) by (rewrite Hlw; reflexivity).
  assert (Hwr : 0 < Rect.w (Paddle.rect r)) by (rewrite Hrw; reflexivity).
  pose proof (ball_state_ok b Hb) as Hok. pose proof Hok as [_ Hx].
  destruct (Rect.colliderect (Ball.rect b) (Paddle.rect l)) eqn:Hc.
  - destruct (collision_ok b l Hok) as [b1 [E1 _]].
    pose proof (collision_hit_rect b l b1 Hx Hc E1) as Er.
    destruct (pushed_out_size b l) as (Ew & _ & _).
    destruct (pushed_out_side b l) as (_ & _ & Hor).
    exists b1, b1. split; [ exact E1 | ].
    assert (Hfar : Rect.colliderect (Ball.rect b1) (Paddle.rect r) = false).
    { rewrite Er. apply not_collide_touching; [ rewrite Ew; exact Hwb | exact Hwr | ].
      right. unfold Rect.left, Rect.right in *.
      rewrite Hrx. unfold WIDTH, MARGIN, PADDLE_W, BALL_SIZE in *.
      destruct Hor as [E | E]; lia. }
    split; [ apply collision_miss, Hfar | ].
    split; [ reflexivity | ]. split; [ discriminate | ].
    intros _. apply not_collide_touching; [ exact Hwb | exact Hwr | ].
    right. destruct (collide_positive _ _ Hwb Hwl Hc) as [H1 H2].
    unfold Rect.left, Rect.right in *.
    rewrite Hrx. unfold WIDTH, MARGIN, PADDLE_W, BALL_SIZE in *. lia.
  - rewrite (collision_miss b l Hc).
    destruct (collision_ok b r Hok) as [b2 [E2 _]].
    exists b, b2. split; [ reflexivity | ]. split; [ exact E2 | ].
    split; [ discriminate | ]. split; [ reflexivity | discriminate ].
Qed.

Lemma one_bounce_per_frame_witness :
  exists b1 b2,
    ball_paddle_collision hit_ball hit_paddle = Some b1 /\
    ball_paddle_collision b1 far_paddle = Some b2 /\
    (Rect.colliderect (Ball.rect hit_ball) (Paddle.rect hit_paddle) = true -> b2 = b1) /\
    (Rect.colliderect (Ball.rect hit_ball) (Paddle.rect hit_paddle) = false -> b1 = hit_ball) /\
    (Rect.colliderect (Ball.rect hit_ball) (Paddle.rect hit_paddle) = true ->
     Rect.colliderect (Ball.rect hit_ball) (Paddle.rect far_paddle) = false).
Proof.
  apply (one_bounce_per_frame hit_ball hit_paddle far_paddle).
  - apply fresh_ball_state. unfold valid_draw, sample_draw. cbn [u]. lra.
  - split; reflexivity.
  - reflexivity.
  - reflexivity.
  - reflexivity.
  - reflexivity.
Defined.




(** *** Event handling *)

Lemma odd_presses_cons (k : Key) (ev : Event) (evs : list Event) :
  Nat.odd (presses k (ev :: evs)) =
  xorb (Nat.odd (presses k [ev])) (Nat.odd (presses k evs)).
Proof.
  destruct ev as [ | k' | ]; cbn [presses]; try reflexivity.
  destruct (key_eqb k k'); [ | reflexivity ].
  rewrite Nat.odd_succ, <- Nat.negb_odd. cbn [Nat.odd].
  destruct (Nat.odd (presses k evs)); reflexivity.
Qed.

Lemma presses_cons_zero (k : Key) (ev : Event) (evs : list Event) :
  presses k (ev :: evs) = O -> presses k [ev] = O /\ presses k evs = O.
Proof.
  destruct ev as [ | k' | ]; cbn [presses]; try (intros H; split; [ reflexivity | exact H ]).
  destruct (key_eqb k k'); [ discriminate | intros H; split; [ reflexivity | exact H ] ].
Qed.

Lemma quits_cons (ev : Event) (evs : list Event) :
  quits (ev :: evs) = quits [ev] || quits evs.
Proof.
  destruct ev as [ | [ | | | | ] | ]; reflexivity.
Qed.

Lemma handle_events_flags (rnd : Rand) (evs : list Event) :
  forall g, exists g',
    handle_events rnd evs g = Some g' /\
    left g' = left g /\ right g' = right g /\
    running g' = running g && negb (quits evs) /\
    paused g' = xorb (paused g) (Nat.odd (presses K_SPACE evs)) /\
    show_help g' = xorb (show_help g) (Nat.odd (presses K_h evs)) /\
    (presses K_r evs = O ->
     ball g' = ball g /\ score_l g' = score_l g /\ score_r g' = score_r g /\
     drawn g' = drawn g).
Proof.
  induction evs as [ | ev evs IH ]; intros g.
  - exists g. cbn [handle_events quits presses negb Nat.odd].
    rewrite andb_true_r, !xorb_false_r. repeat split.
  - cbn [handle_events].
    assert (Hstep : exists g1, handle_event rnd g ev = Some g1 /\
              left g1 = left g /\ right g1 = right g /\
              running g1 = running g && negb (quits [ev]) /\
              paused g1 = xorb (paused g) (Nat.odd (presses K_SPACE [ev])) /\
              show_help g1 = xorb (show_help g) (Nat.odd (presses K_h [ev])) /\
              (presses K_r [ev] = O ->
               ball g1 = ball g /\ score_l g1 = score_l g /\ score_r g1 = score_r g /\
               drawn g1 = drawn g)).
    { destruct ev as [ | [ | | | | ] | ]; cbn [handle_event];
        try rewrite reset_ball_eq; eexists; (split; [ reflexivity | ]);
        cbn [left right running paused show_help ball score_l score_r drawn
             quits presses key_eqb negb Nat.odd];
        rewrite ?andb_true_r, ?andb_false_r, ?xorb_false_r, ?xorb_true_r;
        repeat split; discriminate. }
    destruct Hstep as (g1 & E1 & Hl1 & Hr1 & Hrun1 & Hp1 & Hh1 & Hb1).
    rewrite E1. cbn [bind].
    destruct (IH g1) as (g' & E & Hl & Hr & Hrun & Hp & Hh & Hb).
    exists g'. split; [ exact E | ].
    split; [ congruence | ]. split; [ congruence | ].
    split; [ | split; [ | split ] ].
    + rewrite Hrun, Hrun1, (quits_cons ev evs), negb_orb, andb_assoc. reflexivity.
    + rewrite Hp, Hp1, (odd_presses_cons K_SPACE ev evs), xorb_assoc. reflexivity.
    + rewrite Hh, Hh1, (odd_presses_cons K_h ev evs), xorb_assoc. reflexivity.
    + intros H0. destruct (presses_cons_zero K_r ev evs H0) as [H1 H2].
      destruct (Hb H2) as (Eb & Esl & Esr & Ed).
      destruct (Hb1 H1) as (Eb1 & Esl1 & Esr1 & Ed1).
      repeat split; congruence.
Qed.

(** *** The shape of a frame *)

Lemma collision_keeps_y (b : Ball.t) (p : Paddle.t) (b' : Ball.t) :
  Ball.vx b <> 0%R -> ball_paddle_collision b p = Some b' ->
  Rect.y (Ball.rect b') = Rect.y (Ball.rect b) /\
  Rect.h (Ball.rect b') = Rect.h (Ball.rect b).
Proof.
  intros Hx E.
  destruct (Rect.colliderect (Ball.rect b) (Paddle.rect p)) eqn:Hc.
  - rewrite (collision_hit_rect b p b' Hx Hc E).
    destruct (pushed_out_size b p) as (_ & Eh & Ey). split; assumption.
  - rewrite (collision_miss b p Hc) in E. injection E as <-. split; reflexivity.
Qed.

Lemma play_step_fields (g g2 : Game) :
  play_step g = Some g2 ->
  left g2 = Paddle.update play_area (left g) /\
  right g2 = Paddle.update play_area (right g) /\
  score_l g2 = score_l g /\ score_r g2 = score_r g /\
  running g2 = running g /\ paused g2 = paused g /\
  show_help g2 = show_help g /\ drawn g2 = drawn g /\
  exists b1,
    ball_paddle_collision (wall_step play_area (ball g))
                          (Paddle.update play_area (left g)) = Some b1 /\
    ball_paddle_collision b1 (Paddle.update play_area (right g)) = Some (ball g2).
Proof.
  unfold play_step, wall_step. cbv zeta.
  destruct (ball_paddle_collision _ (Paddle.update play_area (left g)))
    as [b1 | ] eqn:E1; cbn [bind]; [ | discriminate ].
  destruct (ball_paddle_collision b1 _) as [b2 | ] eqn:E2; cbn [bind];
    [ | discriminate ].
  intros E. injection E as <-. cbn [left right score_l score_r running paused show_help drawn ball].
  repeat split. exists b1. split; [ reflexivity | exact E2 ].
Qed.

Lemma scoring_fields (rnd : Rand) (g g3 : Game) :
  scoring rnd g = Some g3 ->
  left g3 = left g /\ right g3 = right g /\
  running g3 = running g /\ paused g3 = paused g /\ show_help g3 = show_help g.
Proof.
  unfold scoring.
  destruct (_ <=? _); rewrite ?reset_ball_eq; cbn [bind ball];
    destruct (_ >=? _); rewrite ?reset_ball_eq;
    intros E; injection E as <-; repeat split.
Qed.

Lemma frame_shape (rnd : Rand) (evs : list Event) (keys : Keys) (g g' : Game) :
  frame rnd evs keys g = Some g' ->
  exists g1 g3,
    handle_events rnd evs g = Some g1 /\ g' = win_banner g3 /\
    ((paused g1 = true /\ g3 = controls keys g1) \/
     (paused g1 = false /\
      exists g2, play_step (controls keys g1) = Some g2 /\
                 scoring rnd g2 = Some g3)).
Proof.
  unfold frame.
  destruct (handle_events rnd evs g) as [g1 | ] eqn:E1; cbn [bind]; [ | discriminate ].
  assert (Hp : paused (controls keys g1) = paused g1) by reflexivity.
  rewrite Hp. destruct (paused g1) eqn:Hp1; cbn [negb bind].
  - intros E. injection E as <-. exists g1, (controls keys g1).
    split; [ reflexivity | ]. split; [ reflexivity | left; split; [ exact Hp1 | reflexivity ] ].
  - destruct (play_step (controls keys g1)) as [g2 | ] eqn:E2; cbn [bind];
      [ | discriminate ].
    destruct (scoring rnd g2) as [g3 | ] eqn:E3; cbn [bind]; [ | discriminate ].
    intros E. injection E as <-. exists g1, g3.
    split; [ reflexivity | ]. split; [ reflexivity | ].
    right. split; [ exact Hp1 | ]. exists g2. split; [ exact E2 | exact E3 ].
Qed.

Lemma win_banner_fields (g : Game) :
  left (win_banner g) = left g /\ right (win_banner g) = right g /\
  ball (win_banner g) = ball g /\
  score_l (win_banner g) = score_l g /\ score_r (win_banner g) = score_r g /\
  running (win_banner g) = running g /\ show_help (win_banner g) = show_help g /\
  paused (win_banner g) = paused g || won g.
Proof.
  unfold win_banner, won. destruct (_ || _); cbn [left right ball score_l score_r running show_help paused];
    rewrite ?orb_true_r, ?orb_false_r; repeat split.
Qed.

Lemma frame_flags (rnd : Rand) (evs : list Event) (keys : Keys) (g g' : Game) :
  frame rnd evs keys g = Some g' ->
  running g' = running g && negb (quits evs) /\
  show_help g' = xorb (show_help g) (Nat.odd (presses K_h evs)) /\
  paused g' = xorb (paused g) (Nat.odd (presses K_SPACE evs)) || won g'.
Proof.
  intros E. destruct (frame_shape rnd evs keys g g' E) as (g1 & g3 & E1 & -> & Hc).
  destruct (handle_events_flags rnd evs g) as (g1' & E1' & _ & _ & Hrun & Hp & Hh & _).
  rewrite E1 in E1'. injection E1' as <-.
  destruct (win_banner_fields g3) as (_ & _ & _ & Hsl & Hsr & Hrun3 & Hh3 & Hp3).
  assert (Hw : won (win_banner g3) = won g3) by (unfold won; rewrite Hsl, Hsr; reflexivity).
  rewrite Hrun3, Hh3, Hp3, Hw.
  assert (Hf : running g3 = running g1 /\ show_help g3 = show_help g1 /\
               paused g3 = paused g1).
  { destruct Hc as [[_ ->] | [_ (g2 & E2 & E3)]].
    - repeat split.
    - destruct (play_step_fields _ _ E2) as (_ & _ & _ & _ & Hr2 & Hp2 & Hh2 & _).
      destruct (scoring_fields _ _ _ E3) as (_ & _ & Hr3 & Hp3' & Hh3').
      rewrite Hr3, Hp3', Hh3', Hr2, Hp2, Hh2. repeat split. }
  destruct Hf as (-> & -> & ->). rewrite Hrun, Hh, Hp. repeat split.
Qed.

Lemma run_stopped (rnd : Rand) (inputs : list (list Event * Keys)) (g : Game) :
  running g = false -> run rnd inputs g = Some g.
Proof.
  intros H. destruct inputs as [ | [evs keys] rest ]; cbn [run]; [ reflexivity | ].
  rewrite H. reflexivity.
Qed.

Lemma reachable_frame_total (rnd : Rand) (evs : list Event) (keys : Keys) (g : Game) :
  valid_rand rnd -> reachable rnd g -> exists g', frame rnd evs keys g = Some g'.
Proof.
  intros Hr Hg.
  destruct (frame_inv rnd evs keys g Hr (reachable_inv rnd g Hr Hg)) as [g' [E _]].
  exists g'. exact E.
Qed.

(** X8.  At the top of every iteration of the loop, a game in which a
    score has reached [WIN_SCORE] is paused. *)
Theorem won_game_is_paused (rnd : Rand) (g : Game) :
  reachable rnd g -> won g = false \/ paused g = true.
Proof.
  intros Hg. destruct Hg as [g Hi | g evs keys g' Hg Hrun Hf].
  - left. rewrite init_eq in Hi. injection Hi as <-. reflexivity.
  - destruct (frame_flags rnd evs keys g g' Hf) as (_ & _ & Hp).
    destruct (won g'); [ right | left; reflexivity ].
    rewrite Hp. apply orb_true_r.
Qed.

Lemma won_game_is_paused_witness :
  won first_game = false \/ paused first_game = true.
Proof.
  apply (won_game_is_paused sample_rand first_game).
  apply reach_init. apply init_eq.
Defined.

(** X11.  From a reachable state a frame always completes, and after it
    [running] is true exactly when it was true before and the events hold
    neither [QUIT] nor Escape; after a quit the loop runs no further frame,
    whatever inputs follow. *)
Theorem quit_ends_the_loop (rnd : Rand) (evs : list Event) (keys : Keys) (g : Game) :
  valid_rand rnd -> reachable rnd g ->
  exists g',
    frame rnd evs keys g = Some g' /\
    running g' = running g && negb (quits evs) /\
    (quits evs = true -> forall rest, run rnd rest g' = Some g').
Proof.
  intros Hr Hg. destruct (reachable_frame_total rnd evs keys g Hr Hg) as [g' E].
  exists g'. split; [ exact E | ].
  destruct (frame_flags rnd evs keys g g' E) as (Hrun & _ & _).
  split; [ exact Hrun | ].
  intros Hq rest. apply run_stopped. rewrite Hrun, Hq. apply andb_false_r.
Qed.

Lemma quit_ends_the_loop_witness :
  exists g',
    frame sample_rand [OTHER; KEYDOWN K_ESCAPE; KEYDOWN K_r] s_key first_game = Some g' /\
    running g' = running first_game && negb (quits [OTHER; KEYDOWN K_ESCAPE; KEYDOWN K_r]) /\
    (quits [OTHER; KEYDOWN K_ESCAPE; KEYDOWN K_r] = true ->
     forall rest, run sample_rand rest g' = Some g').
Proof.
  apply (quit_ends_the_loop sample_rand [OTHER; KEYDOWN K_ESCAPE; KEYDOWN K_r] s_key first_game).
  - intros n. unfold valid_draw, sample_rand, sample_draw. cbn [u]. lra.
  - apply reach_init. apply init_eq.
Defined.

(** X12.  After a frame the help flag has been flipped once per H key
    press (it changes exactly when their number is odd), and [paused] is the
    old flag flipped once per Space press, or true when the game is won. *)
Theorem toggles_follow_parity (rnd : Rand) (evs : list Event) (keys : Keys) (g : Game) :
  valid_rand rnd -> reachable rnd g ->
  exists g',
    frame rnd evs keys g = Some g' /\
    show_help g' = xorb (show_help g) (Nat.odd (presses K_h evs)) /\
    paused g' = xorb (paused g) (Nat.odd (presses K_SPACE evs)) || won g'.
Proof.
  intros Hr Hg. destruct (reachable_frame_total rnd evs keys g Hr Hg) as [g' E].
  exists g'. split; [ exact E | ].
  destruct (frame_flags rnd evs keys g g' E) as (_ & Hh & Hp).
  split; assumption.
Qed.

Lemma toggles_follow_parity_witness :
  exists g',
    frame sample_rand busy_events no_keys first_game = Some g' /\
    show_help g' = xorb (show_help first_game) (Nat.odd (presses K_h busy_events)) /\
    paused g' = xorb (paused first_game) (Nat.odd (presses K_SPACE busy_events)) || won g'.
Proof.
  apply (toggles_follow_parity sample_rand busy_events no_keys first_game).
  - intros n. unfold valid_draw, sample_rand, sample_draw. cbn [u]. lra.
  - apply reach_init. apply init_eq.
Defined.

(** X13.  A frame whose events leave the game paused (the pause flag
    flipped once per Space press is true) and hold no R press changes
    neither the ball, nor a paddle's rectangle, nor a score, and ends
    paused: quitting, the help toggle and the held movement keys move
    nothing. *)
Theorem paused_frame_freezes (rnd : Rand) (evs : list Event) (keys : Keys) (g : Game) :
  xorb (paused g) (Nat.odd (presses K_SPACE evs)) = true ->
  presses K_r evs = O ->
  exists g',
    frame rnd evs keys g = Some g' /\
    ball g' = ball g /\
    Paddle.rect (left g') = Paddle.rect (left g) /\
    Paddle.rect (right g') = Paddle.rect (right g) /\
    score_l g' = score_l g /\ score_r g' = score_r g /\
    paused g' = true.
Proof.
  intros Hp Hr.
  destruct (handle_events_flags rnd evs g)
    as (g1 & E1 & Hl & Hrt & _ & Hp1 & _ & Hb).
  destruct (Hb Hr) as (Eb & Esl & Esr & _).
  rewrite Hp in Hp1.
  unfold frame. rewrite E1. cbn [bind].
  assert (Hpc : paused (controls keys g1) = paused g1) by reflexivity.
  rewrite Hpc, Hp1. cbn [negb bind].
  eexists. split; [ reflexivity | ].
  destruct (win_banner_fields (controls keys g1))
    as (-> & -> & -> & -> & -> & _ & _ & ->).
  unfold controls at 1 2 3 4 5 6. cbn [left right ball score_l score_r paused].
  rewrite ai_move_rect. cbn [Paddle.set_vel Paddle.rect].
  rewrite Hl, Hrt, Eb, Esl, Esr, Hp1. repeat split.
Qed.

Lemma paused_frame_freezes_witness :
  exists g',
    frame sample_rand busy_events s_key paused_first = Some g' /\
    ball g' = ball paused_first /\
    Paddle.rect (left g') = Paddle.rect (left paused_first) /\
    Paddle.rect (right g') = Paddle.rect (right paused_first) /\
    score_l g' = score_l paused_first /\ score_r g' = score_r paused_first /\
    paused g' = true.
Proof.
  apply (paused_frame_freezes sample_rand busy_events s_key paused_first).
  - reflexivity.
  - reflexivity.
Defined.

(** *** The loop invariant *)

Lemma fresh_on_screen (d : Draw) (b : Ball.t) :
  ball_sized b -> ball_on_screen (fresh_ball screen_center d b).
Proof.
  intros [Hw Hh]. unfold ball_on_screen, v_inside, fresh_ball,
    Rect.left, Rect.right, Rect.top, Rect.bottom, Rect.set_center.
  cbn [Ball.rect Rect.x Rect.y Rect.w Rect.h]. rewrite Hw, Hh.
  repeat split; apply Z.leb_le || apply Z.ltb_lt; reflexivity.
Qed.

Lemma clamp_v_inside (b : Ball.t) (bounds : Rect.t) :
  Rect.h (Ball.rect b) <= Rect.h bounds ->
  v_inside (Ball.rect (clamp_ball_vertical b bounds)) bounds.
Proof.
  intros Hh. unfold clamp_ball_vertical, v_inside.
  destruct (Rect.top (Ball.rect b) <=? Rect.top bounds) eqn:Et;
    [ apply Z.leb_le in Et | apply Z.leb_gt in Et ].
  - cbn [Ball.rect]. unfold Rect.set_top, Rect.set_y, Rect.top, Rect.bottom in *.
    cbn [Rect.y Rect.h]. lia.
  - destruct (Rect.bottom (Ball.rect b) >=? Rect.bottom bounds) eqn:Eb;
      [ apply Z.geb_le in Eb | rewrite Z.geb_leb in Eb; apply Z.leb_gt in Eb ].
    + cbn [Ball.rect]. unfold Rect.set_bottom, Rect.set_y, Rect.top, Rect.bottom in *.
      cbn [Rect.y Rect.h]. lia.
    + lia.
Qed.

Lemma paddle_update_xw (bounds : Rect.t) (p : Paddle.t) :
  Rect.x (Paddle.rect (Paddle.update bounds p)) = Rect.x (Paddle.rect p) /\
  Rect.w (Paddle.rect (Paddle.update bounds p)) = Rect.w (Paddle.rect p).
Proof.
  unfold Paddle.update. cbv zeta. cbn [Paddle.rect].
  destruct (_ <? _); destruct (_ >? _); split; reflexivity.
Qed.

Lemma reset_ball_loop (rnd : Rand) (g : Game) :
  valid_rand rnd -> mid_inv g ->
  exists g', reset_ball rnd g = Some g' /\ loop_inv g' /\
             score_l g' = score_l g /\ score_r g' = score_r g.
Proof.
  intros Hr (Hg & Hv & Hc & Hs).
  destruct (reset_ball_inv rnd g Hr Hg) as (g' & E & Hg').
  exists g'. split; [ exact E | ].
  rewrite reset_ball_eq in E. injection E as <-.
  cbn [score_l score_r]. split; [ | split; reflexivity ].
  pose proof (fresh_on_screen (rnd (drawn g)) (ball g) (proj1 (proj2 Hg))) as Hon.
  split; [ split; [ exact Hg' | split; [ | split ] ] | ]; cbn [ball];
    try exact Hon; try exact Hc; try exact Hs.
  apply Hon.
Qed.

Lemma rescore_mid (g : Game) (sl sr : Z) :
  mid_inv g -> 0 <= sl -> 0 <= sr ->
  mid_inv (mkGame (left g) (right g) (ball g) sl sr
                  (running g) (paused g) (show_help g) (drawn g)).
Proof.
  intros (Hg & Hv & Hc & Hs) Hl Hr.
  split; [ exact Hg | ]. split; [ exact Hv | ]. split; [ exact Hc | ].
  split; assumption.
Qed.

Lemma handle_event_loop (rnd : Rand) (g : Game) (ev : Event) :
  valid_rand rnd -> loop_inv g ->
  exists g', handle_event rnd g ev = Some g' /\ loop_inv g'.
Proof.
  intros Hr Hg. destruct ev as [ | [ | | | | ] | ]; cbn [handle_event];
    try (eexists; split; [ reflexivity | exact Hg ]).
  destruct (reset_ball_loop rnd
              (mkGame (left g) (right g) (ball g) 0 0
                      (running g) (paused g) (show_help g) (drawn g)) Hr)
    as (g' & E & Hg' & _).
  - apply rescore_mid; [ apply Hg | lia | lia ].
  - exists g'. split; assumption.
Qed.

Lemma handle_events_loop (rnd : Rand) (evs : list Event) :
  valid_rand rnd -> forall g, loop_inv g ->
  exists g', handle_events rnd evs g = Some g' /\ loop_inv g'.
Proof.
  intros Hr. induction evs as [ | ev evs IH ]; intros g Hg; cbn [handle_events].
  - eexists; split; [ reflexivity | exact Hg ].
  - destruct (handle_event_loop rnd g ev Hr Hg) as [g1 [E1 H1]].
    rewrite E1. cbn [bind]. apply IH, H1.
Qed.

Lemma controls_loop (keys : Keys) (g : Game) : loop_inv g -> loop_inv (controls keys g).
Proof.
  intros ((Hg & Hv & Hc & Hs) & Hon).
  split; [ split; [ apply controls_inv, Hg | split; [ exact Hv | split; [ | exact Hs ] ] ]
         | exact Hon ].
  unfold paddles_in_column, controls. cbn [left right].
  rewrite ai_move_rect. exact Hc.
Qed.

Lemma play_step_mid (g : Game) :
  mid_inv g ->
  exists g2, play_step g = Some g2 /\ mid_inv g2 /\
             score_l g2 = score_l g /\ score_r g2 = score_r g.
Proof.
  intros (Hg & Hv & Hc & Hs).
  destruct (play_step_inv g Hg) as (g2 & E & Hg2).
  exists g2. split; [ exact E | ].
  destruct (play_step_fields g g2 E)
    as (El & Er & Esl & Esr & _ & _ & _ & _ & b1 & E1 & E2).
  split; [ | split; assumption ].
  split; [ exact Hg2 | ]. split; [ | split ].
  - destruct Hg as (Hb & [_ Hbh] & _).
    assert (Hw : ball_state (wall_step play_area (ball g)))
      by (apply bs_clamp, bs_update, Hb).
    destruct (collision_keeps_y _ _ _ (proj2 (ball_state_ok _ Hw)) E1) as [Ey1 Eh1].
    assert (Hb1 : ball_state b1) by (eapply bs_collision; eassumption).
    destruct (collision_keeps_y _ _ _ (proj2 (ball_state_ok _ Hb1)) E2) as [Ey2 Eh2].
    pose proof (clamp_v_inside (Ball.update (ball g)) play_area) as Hin.
    unfold v_inside, Rect.top, Rect.bottom in *. fold (wall_step play_area (ball g)) in Hin.
    rewrite Ey2, Eh2, Ey1, Eh1. apply Hin.
    change (Rect.h (Ball.rect (Ball.update (ball g)))) with (Rect.h (Ball.rect (ball g))).
    rewrite Hbh. apply Z.leb_le. reflexivity.
  - unfold paddles_in_column in *. rewrite El, Er.
    destruct (paddle_update_xw play_area (left g)) as [-> ->].
    destruct (paddle_update_xw play_area (right g)) as [-> ->]. exact Hc.
  - unfold scores_ok in *. rewrite Esl, Esr. exact Hs.
Qed.

Lemma scoring_loop (rnd : Rand) (g : Game) :
  valid_rand rnd -> mid_inv g ->
  exists g3, scoring rnd g = Some g3 /\ loop_inv g3 /\
             score_l g <= score_l g3 /\ score_r g <= score_r g3 /\
             score_l g3 + score_r g3 <= score_l g + score_r g + 1.
Proof.
  intros Hr Hm. pose proof Hm as (Hg & Hv & Hc & [Hsl Hsr]).
  pose proof (proj1 (proj2 Hg)) as Hs.
  destruct (Z_le_gt_dec (Rect.left (Ball.rect (ball g))) (Rect.left play_area - 4))
    as [L | L].
  - rewrite (scoring_left rnd g Hs L).
    destruct (reset_ball_loop rnd
                (mkGame (left g) (right g) (ball g) (score_l g) (score_r g + 1)
                        (running g) (paused g) (show_help g) (drawn g)) Hr)
      as (g' & E & Hg' & _); [ apply rescore_mid; [ exact Hm | lia | lia ] | ].
    rewrite reset_ball_eq in E. injection E as <-.
    eexists. split; [ reflexivity | ]. split; [ exact Hg' | ].
    cbn [score_l score_r]. lia.
  - destruct (Z_le_gt_dec (Rect.right play_area + 4) (Rect.right (Ball.rect (ball g))))
      as [Rr | Rr].
    + rewrite (scoring_right rnd g) by lia.
      destruct (reset_ball_loop rnd
                  (mkGame (left g) (right g) (ball g) (score_l g + 1) (score_r g)
                          (running g) (paused g) (show_help g) (drawn g)) Hr)
        as (g' & E & Hg' & _); [ apply rescore_mid; [ exact Hm | lia | lia ] | ].
      rewrite reset_ball_eq in E. injection E as <-.
      eexists. split; [ reflexivity | ]. split; [ exact Hg' | ].
      cbn [score_l score_r]. lia.
    + rewrite (scoring_none rnd g) by lia.
      eexists. split; [ reflexivity | ].
      split; [ split; [ exact Hm | ] | lia ].
      split; [ lia | ]. split; [ lia | exact Hv ].
Qed.

Lemma win_banner_loop (g : Game) : loop_inv g -> loop_inv (win_banner g).
Proof.
  intros Hg. unfold win_banner. destruct (_ || _); exact Hg.
Qed.

Lemma frame_loop (rnd : Rand) (evs : list Event) (keys : Keys) (g : Game) :
  valid_rand rnd -> loop_inv g ->
  exists g', frame rnd evs keys g = Some g' /\ loop_inv g' /\
    (presses K_r evs = O ->
     score_l g <= score_l g' /\ score_r g <= score_r g' /\
     score_l g' + score_r g' <= score_l g + score_r g + 1).
Proof.
  intros Hr Hg. unfold frame.
  destruct (handle_events_loop rnd evs Hr g Hg) as [g1 [E1 H1]].
  destruct (handle_events_flags rnd evs g) as (g1' & E1' & _ & _ & _ & _ & _ & Hb).
  rewrite E1 in E1'. injection E1' as <-.
  rewrite E1. cbn [bind].
  pose proof (controls_loop keys g1 H1) as H2.
  assert (Hsc : score_l (controls keys g1) = score_l g1 /\
                score_r (controls keys g1) = score_r g1) by (split; reflexivity).
  destruct Hsc as [Hcl Hcr].
  destruct (negb (paused (controls keys g1))).
  - destruct (play_step_mid _ (proj1 H2)) as (g3 & E3 & H3 & Esl3 & Esr3).
    rewrite E3. cbn [bind].
    destruct (scoring_loop rnd g3 Hr H3) as (g4 & E4 & H4 & Hl4 & Hr4 & Ht4).
    rewrite E4. cbn [bind].
    eexists; split; [ reflexivity | ]. split; [ apply win_banner_loop, H4 | ].
    intros H0. destruct (Hb H0) as (_ & Esl & Esr & _).
    destruct (win_banner_fields g4) as (_ & _ & _ & -> & -> & _).
    lia.
  - cbn [bind]. eexists; split; [ reflexivity | ].
    split; [ apply win_banner_loop, H2 | ].
    intros H0. destruct (Hb H0) as (_ & Esl & Esr & _).
    destruct (win_banner_fields (controls keys g1)) as (_ & _ & _ & -> & -> & _).
    lia.
Qed.

Lemma init_loop (rnd : Rand) :
  valid_rand rnd -> exists g, init rnd = Some g /\ loop_inv g.
Proof.
  intros Hr. destruct (init_inv rnd Hr) as (g & E & Hg).
  exists g. split; [ exact E | ].
  rewrite init_eq in E. injection E as <-.
  split; [ split; [ exact Hg | split; [ | split ] ] | ].
  - split; apply Z.leb_le; reflexivity.
  - repeat split.
  - split; apply Z.leb_le; reflexivity.
  - repeat split; apply Z.leb_le || apply Z.ltb_lt; reflexivity.
Qed.

Lemma reachable_loop (rnd : Rand) (g : Game) :
  valid_rand rnd -> reachable rnd g -> loop_inv g.
Proof.
  intros Hr. induction 1 as [g Hi | g evs keys g' Hg IH Hrun Hf].
  - destruct (init_loop rnd Hr) as [g0 [E0 H0]].
    rewrite E0 in Hi. injection Hi as <-. exact H0.
  - destruct (frame_loop rnd evs keys g Hr IH) as (g1 & E1 & H1 & _).
    rewrite E1 in Hf. injection Hf as <-. exact H1.
Qed.

(** X9.  At the top of every iteration the ball is 14 by 14, lies
    between the top and bottom walls, and has not crossed a scoring line:
    [ball.left > play_area.left - 4] and [ball.right < play_area.right + 4]. *)
Theorem ball_stays_on_screen (rnd : Rand) (g : Game) :
  valid_rand rnd -> reachable rnd g ->
  Rect.left play_area - 4 < Rect.left (Ball.rect (ball g)) /\
  Rect.right (Ball.rect (ball g)) < Rect.right play_area + 4 /\
  Rect.top play_area <= Rect.top (Ball.rect (ball g)) /\
  Rect.bottom (Ball.rect (ball g)) <= Rect.bottom play_area /\
  Rect.w (Ball.rect (ball g)) = BALL_SIZE /\
  Rect.h (Ball.rect (ball g)) = BALL_SIZE.
Proof.
  intros Hr Hg.
  destruct (reachable_loop rnd g Hr Hg)
    as (((_ & [Hw Hh] & _) & _) & (Hl & Hrt & Ht & Hb)).
  repeat split; assumption.
Qed.

Lemma ball_stays_on_screen_witness :
  Rect.left play_area - 4 < Rect.left (Ball.rect (ball first_game)) /\
  Rect.right (Ball.rect (ball first_game)) < Rect.right play_area + 4 /\
  Rect.top play_area <= Rect.top (Ball.rect (ball first_game)) /\
  Rect.bottom (Ball.rect (ball first_game)) <= Rect.bottom play_area /\
  Rect.w (Ball.rect (ball first_game)) = BALL_SIZE /\
  Rect.h (Ball.rect (ball first_game)) = BALL_SIZE.
Proof.
  apply (ball_stays_on_screen sample_rand first_game).
  - intros n. unfold valid_draw, sample_rand, sample_draw. cbn [u]. lra.
  - apply reach_init. apply init_eq.
Defined.

(** X10.  Scores are never negative, and a frame without an R press
    lowers no score and adds at most one point in total. *)
Theorem one_point_per_frame (rnd : Rand) (evs : list Event) (keys : Keys) (g : Game) :
  valid_rand rnd -> reachable rnd g ->
  0 <= score_l g /\ 0 <= score_r g /\
  exists g',
    frame rnd evs keys g = Some g' /\
    (presses K_r evs = O ->
     score_l g <= score_l g' /\ score_r g <= score_r g' /\
     score_l g' + score_r g' <= score_l g + score_r g + 1).
Proof.
  intros Hr Hg. pose proof (reachable_loop rnd g Hr Hg) as Hl.
  destruct Hl as ((Hgi & Hv & Hc & [Hsl Hsr]) & Hon).
  split; [ exact Hsl | ]. split; [ exact Hsr | ].
  destruct (frame_loop rnd evs keys g Hr
              (conj (conj Hgi (conj Hv (conj Hc (conj Hsl Hsr)))) Hon))
    as (g' & E & _ & Hs).
  exists g'. split; assumption.
Qed.

Lemma one_point_per_frame_witness :
  0 <= score_l first_game /\ 0 <= score_r first_game /\
  exists g',
    frame sample_rand busy_events s_key first_game = Some g' /\
    (presses K_r busy_events = O ->
     score_l first_game <= score_l g' /\ score_r first_game <= score_r g' /\
     score_l g' + score_r g' <= score_l first_game + score_r first_game + 1).
Proof.
  apply (one_point_per_frame sample_rand busy_events s_key first_game).
  - intros n. unfold valid_draw, sample_rand, sample_draw. cbn [u]. lra.
  - apply reach_init. apply init_eq.
Defined.

(** X16.  The paddles never leave their columns: in every reachable
    state the left paddle is at x = 38 and the right one at x = 848, both 14
    wide and 110 high, and they do not intersect. *)
Theorem paddles_keep_their_column (rnd : Rand) (g : Game) :
  valid_rand rnd -> reachable rnd g ->
  Rect.x (Paddle.rect (left g)) = MARGIN + 18 /\
  Rect.x (Paddle.rect (right g)) = WIDTH - MARGIN - 18 - PADDLE_W /\
  Rect.w (Paddle.rect (left g)) = PADDLE_W /\
  Rect.w (Paddle.rect (right g)) = PADDLE_W /\
  Rect.h (Paddle.rect (left g)) = PADDLE_H /\
  Rect.h (Paddle.rect (right g)) = PADDLE_H /\
  Rect.colliderect (Paddle.rect (left g)) (Paddle.rect (right g)) = false.
Proof.
  intros Hr Hg.
  destruct (reachable_loop rnd g Hr Hg)
    as (((_ & _ & [Hlh _] & [Hrh _]) & _ & (Hlx & Hlw & Hrx & Hrw) & _) & _).
  repeat split; try assumption.
  apply not_collide_touching; [ rewrite Hlw; reflexivity | rewrite Hrw; reflexivity | ].
  right. unfold Rect.left, Rect.right. rewrite Hlx, Hlw, Hrx. apply Z.leb_le. reflexivity.
Qed.

Lemma center_line_fuel (fuel : nat) :
  forall y l, center_line_loop fuel y = Some l ->
              center_line_loop (S fuel) y = Some l.
Proof.
  induction fuel as [ | fuel IH ]; intros y l; [ discriminate | ].
  intros E. cbn [center_line_loop] in E. cbv zeta in E.
  change (center_line_loop (S (S fuel)) y) with
    (if y <? HEIGHT then
       rest <- center_line_loop (S fuel) (y + (14 + 10)) ;;
       Some (Rect.mk (WIDTH / 2 - 2) y 4 14 :: rest)
     else Some []).
  destruct (y <? HEIGHT); [ | exact E ].
  destruct (center_line_loop fuel (y + (14 + 10))) as [rest | ] eqn:Er;
    cbn [bind] in E; [ | discriminate ].
  rewrite (IH _ _ Er). exact E.
Qed.

Lemma center_line_fuel_le (n m : nat) (y : Z) (l : list Rect.t) :
  (n <= m)%nat -> center_line_loop n y = Some l -> center_line_loop m y = Some l.
Proof.
  induction 1 as [ | m Hle IH ]; intros E; [ exact E | ].
  apply center_line_fuel, IH, E.
Qed.

Lemma paddles_keep_their_column_witness :
  Rect.x (Paddle.rect (left first_game)) = MARGIN + 18 /\
  Rect.x (Paddle.rect (right first_game)) = WIDTH - MARGIN - 18 - PADDLE_W /\
  Rect.w (Paddle.rect (left first_game)) = PADDLE_W /\
  Rect.w (Paddle.rect (right first_game)) = PADDLE_W /\
  Rect.h (Paddle.rect (left first_game)) = PADDLE_H /\
  Rect.h (Paddle.rect (right first_game)) = PADDLE_H /\
  Rect.colliderect (Paddle.rect (left first_game)) (Paddle.rect (right first_game)) = false.
Proof.
  apply (paddles_keep_their_column sample_rand first_game).
  - intros n. unfold valid_draw, sample_rand, sample_draw. cbn [u]. lra.
  - apply reach_init. apply init_eq.
Defined.

(** X14.  The loop of [draw_center_line] ends after 25 dashes (the 26th
    test leaves it; fuel 25 is not enough): dash i is the rectangle
    (448, 24 i, 4, 14), every dash lies inside the window's height and is
    centred on WIDTH // 2. *)
Theorem center_line_dashes (fuel : nat) :
  (26 <= fuel)%nat ->
  exists l,
    draw_center_line fuel = Some l /\
    length l = 25%nat /\
    (forall i, (i < 25)%nat ->
       nth i l (Rect.mk 0 0 0 0) = Rect.mk (WIDTH / 2 - 2) (24 * Z.of_nat i) 4 14) /\
    Forall (fun r => 0 <= Rect.top r /\ Rect.bottom r <= HEIGHT /\
                     Rect.centerx r = WIDTH / 2) l /\
    draw_center_line 25 = None.
Proof.
  intros Hf.
  assert (E : draw_center_line 26 =
              Some (map (fun i => Rect.mk (WIDTH / 2 - 2) (24 * Z.of_nat i) 4 14) (seq 0 25)))
    by (vm_compute; reflexivity).
  eexists. split; [ exact (center_line_fuel_le 26 fuel 0 _ Hf E) | ].
  split; [ reflexivity | ]. split; [ | split ].
  - intros i Hi.
    do 25 (destruct i as [ | i ]; [ vm_compute; reflexivity | ]). lia.
  - repeat constructor; vm_compute; discriminate.
  - vm_compute. reflexivity.
Qed.

Lemma center_line_dashes_witness :
  exists l,
    draw_center_line 30 = Some l /\
    length l = 25%nat /\
    (forall i, (i < 25)%nat ->
       nth i l (Rect.mk 0 0 0 0) = Rect.mk (WIDTH / 2 - 2) (24 * Z.of_nat i) 4 14) /\
    Forall (fun r => 0 <= Rect.top r /\ Rect.bottom r <= HEIGHT /\
                     Rect.centerx r = WIDTH / 2) l /\
    draw_center_line 25 = None.
Proof.
  apply (center_line_dashes 30). lia.
Defined.

(** X15.  [Ball(x, y)] passes (x, y) to [reset] as the centre, so the
    new ball is centred on (x, y) with its corner at (x - 7, y - 7), not at
    (x, y); in [main] the first ball is therefore centred 7 pixels up and
    left of the screen centre that later resets use.  Its speed is
    [BALL_SPEED]. *)
Theorem ball_constructor_centres (x y : Z) (d : Draw) :
  exists b,
    Ball.init x y d = Some b /\
    Rect.centerx (Ball.rect b) = x /\ Rect.centery (Ball.rect b) = y /\
    Rect.left (Ball.rect b) = x - 7 /\ Rect.top (Ball.rect b) = y - 7 /\
    Rect.w (Ball.rect b) = BALL_SIZE /\ Rect.h (Ball.rect b) = BALL_SIZE /\
    Ball.speed b = IZR BALL_SPEED /\
    forall rnd, exists g,
      init rnd = Some g /\
      Rect.centerx (Ball.rect (ball g)) = fst screen_center - 7 /\
      Rect.centery (Ball.rect (ball g)) = snd screen_center - 7.
Proof.
  unfold Ball.init. rewrite reset_fresh. eexists. split; [ reflexivity | ].
  destruct (fresh_ball_center (x, y) d
              (Ball.mk (Rect.mk x y BALL_SIZE BALL_SIZE) 0 0)) as [Ex Ey].
  split; [ exact Ex | ]. split; [ exact Ey | ].
  split; [ reflexivity | ]. split; [ reflexivity | ].
  split; [ reflexivity | ]. split; [ reflexivity | ].
  split; [ apply fresh_ball_ok | ].
  intros rnd. rewrite init_eq. eexists. split; [ reflexivity | ].
  split; reflexivity.
Qed.
